(** * bombardier: the load-driving core, embedded and verified

    A shallow embedding of the Go package [lib] of bombardier:
    the completion barrier (counted and timed), the worker loop that
    drives it, the statistics written per request, the byte-counting
    connection, the validation of a [Config] and the header list.

    Conventions of the embedding.
    - [uint64] and [int64] values are integers of [Z]; every arithmetic
      operation of the source that can wrap has its wrap-around written
      out ([wrap64] for unsigned, [wrapS64] for two's complement).
    - A Go pointer that may be [nil] ([*uint64], [*time.Duration]) is an
      [option].
    - A channel that is only ever closed and polled ([doneChan]) is its
      closed flag together with the number of [close] calls executed on
      it; closing a closed channel panics, as in Go.
    - [sync.Once] is its done flag.
    - A function that can panic returns an [option], [None] being the
      panic; one that returns an error besides returns a [result].
    - Shared mutable objects are passed explicitly: an operation returns
      the new state next to its result. *)

From Stdlib Require Import ZArith QArith Lia Bool Ascii String.
From stdpp Require Import base list gmap strings.

Local Open Scope Z_scope.

(** ** Machine integers *)

Definition two64 : Z := 2 ^ 64.
Definition two63 : Z := 2 ^ 63.

(** The value an unsigned 64-bit register holds after receiving [x]. *)
Definition wrap64 (x : Z) : Z := x mod two64.

(** The value a signed 64-bit register holds after receiving [x]. *)
Definition wrapS64 (x : Z) : Z := (x + two63) mod two64 - two63.

Definition is_uint64 (x : Z) : Prop := 0 <= x < two64.
Definition is_int64 (x : Z) : Prop := - two63 <= x < two63.

(** [atomic.AddUint64(&v, d)]: the new value is stored and returned. *)
Definition atomic_AddUint64 (v d : Z) : Z := wrap64 (v + d).

(** [atomic.AddInt64(&v, d)]. *)
Definition atomic_AddInt64 (v d : Z) : Z := wrapS64 (v + d).

(** ** float64 results

    [completed] returns a [float64] computed by one division of two
    integers converted to [float64].  The embedding keeps the exact
    quotient as a rational and the two special outcomes of a division by
    zero; the rounding of the conversions and of the quotient to 53 bits
    is not represented. *)
Inductive float64 : Type :=
| FFin (q : Q)
| FInf (negative : bool)
| FNaN.

Definition float64_one : float64 := FFin 1%Q.

(** [float64(x) / float64(y)] for integers [x] and [y]. *)
Definition float64_div (x y : Z) : float64 :=
  if y =? 0 then
    if x =? 0 then FNaN else FInf (x <? 0)
  else FFin (Qmake x 1 / Qmake y 1)%Q.

(** The result lies in the closed interval from 0 to 1. *)
Definition in_unit_interval (f : float64) : Prop :=
  match f with
  | FFin q => (0 <= q)%Q /\ (q <= 1)%Q
  | _ => False
  end.

(** The result is the float [1.0]. *)
Definition is_one (f : float64) : Prop :=
  match f with
  | FFin q => (q == 1)%Q
  | _ => False
  end.

(** ** Channels closed at most once, and sync.Once *)

Record chan : Type := mkChan {
  chan_closed : bool;
  (** number of [close] calls executed on the channel so far *)
  chan_closes : nat
}.

Definition make_chan : chan := mkChan false 0.

(** [close(ch)]: panics on a closed channel. *)
Definition close (ch : chan) : option chan :=
  if chan_closed ch then None
  else Some (mkChan true (S (chan_closes ch))).

(** ** The completion barrier *)

Module Completion.

Record countingCompletionBarrier : Type := mkCounting {
  numReqs : Z;
  reqsGrabbed : Z;
  reqsDone : Z;
  doneChan : chan;
  closeOnce : bool
}.

Definition newCountingCompletionBarrier (n : Z) : countingCompletionBarrier :=
  mkCounting n 0 0 make_chan false.

(** [c.closeOnce.Do(func() { close(c.doneChan) })] *)
Definition closeOnce_Do (c : countingCompletionBarrier)
  : option countingCompletionBarrier :=
  if closeOnce c then Some c
  else
    match close (doneChan c) with
    | None => None
    | Some ch =>
        Some (mkCounting (numReqs c) (reqsGrabbed c) (reqsDone c) ch true)
    end.

(** The [default] branch of [tryGrabWork]: the atomic add, and the
    comparison of the value it returned. *)
Definition tryGrabWork_add (c : countingCompletionBarrier)
  : bool * countingCompletionBarrier :=
  let reqsDone' := atomic_AddUint64 (reqsGrabbed c) 1 in
  (reqsDone' <=? numReqs c,
   mkCounting (numReqs c) reqsDone' (reqsDone c) (doneChan c) (closeOnce c)).

(** [tryGrabWork()]: the [select] on the done-channel, then the branch
    taken.  Between the two another goroutine may run; the worker pool
    below takes them as separate steps. *)
Definition tryGrabWork (c : countingCompletionBarrier)
  : bool * countingCompletionBarrier :=
  if chan_closed (doneChan c) then (false, c)
  else tryGrabWork_add c.

(** The atomic add of [jobDone]: the value it returned and the barrier
    after it. *)
Definition jobDone_add (c : countingCompletionBarrier)
  : Z * countingCompletionBarrier :=
  let reqsDone' := atomic_AddUint64 (reqsDone c) 1 in
  (reqsDone',
   mkCounting (numReqs c) (reqsGrabbed c) reqsDone' (doneChan c) (closeOnce c)).

(** [jobDone()]: the add, then the once-guarded close if the value
    returned is the total. *)
Definition jobDone (c : countingCompletionBarrier)
  : option countingCompletionBarrier :=
  let '(reqsDone', c') := jobDone_add c in
  if reqsDone' =? numReqs c then closeOnce_Do c' else Some c'.

Definition done (c : countingCompletionBarrier) : chan := doneChan c.

Definition Cancel (c : countingCompletionBarrier)
  : option countingCompletionBarrier := closeOnce_Do c.

Definition completed (c : countingCompletionBarrier) : float64 :=
  if chan_closed (doneChan c) then float64_one
  else float64_div (reqsDone c) (numReqs c).

(** The timed barrier.  [start] is kept as the source has it; the clock
    is read by the caller: [since] below stands for
    [time.Since(c.start).Nanoseconds()] at the moment of the call. *)
Record timedCompletionBarrier : Type := mkTimed {
  tDoneChan : chan;
  tCloseOnce : bool;
  start : Z;
  duration : Z
}.

(** Panics on a negative duration.  The timer it starts is the event
    [timerFired] below. *)
Definition newTimedCompletionBarrier (now d : Z)
  : option timedCompletionBarrier :=
  if d <? 0 then None else Some (mkTimed make_chan false now d).

Definition tCloseOnce_Do (c : timedCompletionBarrier)
  : option timedCompletionBarrier :=
  if tCloseOnce c then Some c
  else
    match close (tDoneChan c) with
    | None => None
    | Some ch => Some (mkTimed ch true (start c) (duration c))
    end.

(** The function handed to [time.AfterFunc]. *)
Definition timerFired (c : timedCompletionBarrier)
  : option timedCompletionBarrier := tCloseOnce_Do c.

Definition tTryGrabWork (c : timedCompletionBarrier)
  : bool * timedCompletionBarrier :=
  if chan_closed (tDoneChan c) then (false, c) else (true, c).

Definition tJobDone (c : timedCompletionBarrier)
  : option timedCompletionBarrier := Some c.

Definition tDone (c : timedCompletionBarrier) : chan := tDoneChan c.

Definition tCancel (c : timedCompletionBarrier)
  : option timedCompletionBarrier := tCloseOnce_Do c.

Definition tCompleted (since : Z) (c : timedCompletionBarrier) : float64 :=
  if chan_closed (tDoneChan c) then float64_one
  else float64_div since (duration c).

(** The interface [completionBarrier] with its two implementations. *)
Inductive completionBarrier : Type :=
| Counting (c : countingCompletionBarrier)
| Timed (t : timedCompletionBarrier).

Definition b_done (b : completionBarrier) : chan :=
  match b with
  | Counting c => done c
  | Timed t => tDone t
  end.

Definition b_once (b : completionBarrier) : bool :=
  match b with
  | Counting c => closeOnce c
  | Timed t => tCloseOnce t
  end.

Definition b_tryGrabWork (b : completionBarrier) : bool * completionBarrier :=
  match b with
  | Counting c => let '(r, c') := tryGrabWork c in (r, Counting c')
  | Timed t => let '(r, t') := tTryGrabWork t in (r, Timed t')
  end.

Definition b_jobDone (b : completionBarrier) : option completionBarrier :=
  match b with
  | Counting c => Counting <$> jobDone c
  | Timed t => Timed <$> tJobDone t
  end.

Definition b_Cancel (b : completionBarrier) : option completionBarrier :=
  match b with
  | Counting c => Counting <$> Cancel c
  | Timed t => Timed <$> tCancel t
  end.

Definition b_completed (since : Z) (b : completionBarrier) : float64 :=
  match b with
  | Counting c => completed c
  | Timed t => tCompleted since t
  end.

(** What can happen to a barrier, in any order: the calls of its methods
    by workers, by the progress updater and by the signal handler, and
    (timed only) the expiry of the timer.  On a counted barrier there is
    no timer and [CallTimer] leaves it alone. *)
Inductive call : Type :=
| CallCancel
| CallJobDone
| CallTryGrabWork
| CallCompleted (since : Z)
| CallTimer.

Definition perform (b : completionBarrier) (e : call)
  : option completionBarrier :=
  match e with
  | CallCancel => b_Cancel b
  | CallJobDone => b_jobDone b
  | CallTryGrabWork => Some (snd (b_tryGrabWork b))
  | CallCompleted _ => Some b
  | CallTimer =>
      match b with
      | Counting _ => Some b
      | Timed t => Timed <$> timerFired t
      end
  end.

(** A history of calls; [None] as soon as one of them panics. *)
Fixpoint perform_all (b : completionBarrier) (es : list call)
  : option completionBarrier :=
  match es with
  | [] => Some b
  | e :: es' =>
      match perform b e with
      | None => None
      | Some b' => perform_all b' es'
      end
  end.

(** A counted barrier whose grab counter holds the largest [uint64]. *)
Definition saturated (n : Z) : countingCompletionBarrier :=
  mkCounting n (two64 - 1) 0 make_chan false.

(** [n] successive calls of [tryGrabWork]. *)
Definition grab_repeatedly (n : N) (c : countingCompletionBarrier)
  : countingCompletionBarrier :=
  N.iter n (fun c' => snd (tryGrabWork c')) c.

(** A timed barrier of one second, still open, asked after two seconds. *)
Definition overdue : timedCompletionBarrier :=
  mkTimed make_chan false 0 1000000000.

(** The guard and the channel agree: the channel is closed exactly when
    the once has fired, and one [close] was executed for it. *)
Definition once_guards (b : completionBarrier) : Prop :=
  chan_closed (b_done b) = b_once b /\
  chan_closes (b_done b) = (if b_once b then 1 else 0)%nat.

(** The number of [jobDone] calls in a history. *)
Fixpoint jobs_done (es : list call) : nat :=
  match es with
  | [] => 0
  | CallJobDone :: es' => S (jobs_done es')
  | _ :: es' => jobs_done es'
  end.

End Completion.

(** ** Errors *)

(** The package's error values, and the errors of the libraries it calls
    (urlx, crypto/tls, io/ioutil, text/template), which it passes on. *)
Inductive error : Type :=
| errInvalidURL
| errZeroRate
| errInvalidNumberOfConns
| errInvalidNumberOfRequests
| errInvalidTestDuration
| errNegativeTimeout
| errBodyNotAllowed
| errBodyProvidedTwice
| errNoPathToKey
| errNoPathToCert
| errInvalidHeaderFormat
| invalidHTTPMethodError (method : string)
| libraryError (msg : string).

(** What a function that returns [(T, error)] and may panic gives. *)
Inductive result (A : Type) : Type :=
| Ok (a : A)
| Err (e : error)
| Panic.
Arguments Ok {A} a.
Arguments Err {A} e.
Arguments Panic {A}.

(** ** Header list (headers.go) *)

Module HeaderList.

Record header : Type := mkHeader { key : string; value : string }.

Definition HeadersList : Type := list header.

Definition colon : ascii := ":"%char.
Definition space : ascii := " "%char.

(** [s[:m]] and [s[m+1:]] for the first index [m] at which [sep] occurs
    ([strings.Index] followed by the two slices of [genSplit]). *)
Fixpoint cut (sep : ascii) (s : string) : option (string * string) :=
  match s with
  | EmptyString => None
  | String a s' =>
      if Ascii.eqb a sep then Some (EmptyString, s')
      else
        match cut sep s' with
        | None => None
        | Some (before, after) => Some (String a before, after)
        end
  end.

(** [strings.SplitN(s, sep, n)] for a one-byte separator and [n >= 0]:
    at most [n] pieces, the last one the unsplit remainder. *)
Fixpoint SplitN (s : string) (sep : ascii) (n : nat) : list string :=
  match n with
  | O => []
  | S O => [s]
  | S n' =>
      match cut sep s with
      | None => [s]
      | Some (before, after) => before :: SplitN after sep n'
      end
  end.

(** [strings.TrimLeft(s, " ")] *)
Fixpoint TrimLeft (s : string) : string :=
  match s with
  | String a s' => if Ascii.eqb a space then TrimLeft s' else s
  | EmptyString => EmptyString
  end.

(** [strings.TrimRight(s, " ")] *)
Fixpoint TrimRight (s : string) : string :=
  match s with
  | EmptyString => EmptyString
  | String a s' =>
      match TrimRight s' with
      | EmptyString => if Ascii.eqb a space then EmptyString
                       else String a EmptyString
      | r => String a r
      end
  end.

(** [strings.Trim(s, " ")] *)
Definition Trim (s : string) : string := TrimRight (TrimLeft s).

(** [(h *HeadersList) Set(value)]: the list after the call and the error
    returned. *)
Definition Set_ (h : HeadersList) (v : string)
  : HeadersList * option error :=
  match SplitN v colon 2 with
  | [k; rest] => (h ++ [mkHeader k (Trim rest)], None)
  | _ => (h, Some errInvalidHeaderFormat)
  end.

(** Successive [Set] calls on one list, as the flag parser makes them
    for a repeated [-H]; the errors are collected in call order. *)
Fixpoint Set_all (h : HeadersList) (vs : list string)
  : HeadersList * list (option error) :=
  match vs with
  | [] => (h, [])
  | v :: vs' =>
      let '(h1, e) := Set_ h v in
      let '(h2, es) := Set_all h1 vs' in
      (h2, e :: es)
  end.

(** A string of [n] spaces. *)
Fixpoint spaces (n : nat) : string :=
  match n with
  | O => EmptyString
  | S k => String space (spaces k)
  end.

(** [a] occurs in [s]. *)
Fixpoint occurs (a : ascii) (s : string) : bool :=
  match s with
  | EmptyString => false
  | String b s' => Ascii.eqb b a || occurs a s'
  end.

(** First and last byte of a string. *)
Definition first_byte (s : string) : option ascii :=
  match s with
  | EmptyString => None
  | String a _ => Some a
  end.

Fixpoint last_byte (s : string) : option ascii :=
  match s with
  | EmptyString => None
  | String a EmptyString => Some a
  | String _ s' => last_byte s'
  end.

End HeaderList.

(** ** Configuration (config.go) *)

Module Validation.

Import HeaderList.

Inductive clientTyp : Type := fhttp | nhttp1 | nhttp2.

Inductive testTyp : Type := none | timed | counted.

Definition testTyp_eqb (a b : testTyp) : bool :=
  match a, b with
  | none, none | timed, timed | counted, counted => true
  | _, _ => false
  end.

(** The two implementations of the interface [format]; a [nil] format is
    [None] in the field below. *)
Inductive format : Type :=
| knownFormat (name : string)
| userDefinedTemplate (path : string).

Record Config : Type := mkConfig {
  NumConns : Z;
  NumReqs : option Z;
  Duration : option Z;
  Url : string;
  Method : string;
  CertPath : string;
  KeyPath : string;
  Body : string;
  BodyFilePath : string;
  Stream : bool;
  Headers : option HeadersList;
  Timeout : Z;
  PrintLatencies : bool;
  Insecure : bool;
  Rate : option Z;
  ClientType : clientTyp;
  PrintIntro : bool;
  PrintProgress : bool;
  PrintResult : bool;
  Format : option format
}.

Definition set_Duration (c : Config) (d : option Z) : Config :=
  mkConfig (NumConns c) (NumReqs c) d (Url c) (Method c) (CertPath c)
    (KeyPath c) (Body c) (BodyFilePath c) (Stream c) (Headers c) (Timeout c)
    (PrintLatencies c) (Insecure c) (Rate c) (ClientType c) (PrintIntro c)
    (PrintProgress c) (PrintResult c) (Format c).

Definition set_Url (c : Config) (u : string) : Config :=
  mkConfig (NumConns c) (NumReqs c) (Duration c) u (Method c) (CertPath c)
    (KeyPath c) (Body c) (BodyFilePath c) (Stream c) (Headers c) (Timeout c)
    (PrintLatencies c) (Insecure c) (Rate c) (ClientType c) (PrintIntro c)
    (PrintProgress c) (PrintResult c) (Format c).

(** [time.Second], in nanoseconds. *)
Definition time_Second : Z := 1000000000.

(** What [urlx.Parse] returns on success, with the rendering
    [url.String()] of the parsed value. *)
Record URL : Type := mkURL {
  Scheme : string;
  Host : string;
  URL_String : string
}.

(** [sort.Search(n, f)]: the loop of the binary search; it runs at most
    [n] times. *)
Fixpoint sort_Search_loop (fuel : nat) (f : nat -> bool) (i j : nat) : nat :=
  match fuel with
  | O => i
  | S fuel' =>
      if (i <? j)%nat then
        let h := ((i + j) / 2)%nat in
        if f h then sort_Search_loop fuel' f i h
        else sort_Search_loop fuel' f (h + 1)%nat j
      else i
  end.

Definition sort_Search (n : nat) (f : nat -> bool) : nat :=
  sort_Search_loop n f 0%nat n.

(** [sort.SearchStrings(a, x)]; [a[i] >= x] compares byte-wise. *)
Definition sort_SearchStrings (a : list string) (x : string) : nat :=
  sort_Search (length a)
    (fun i => match a !! i with
              | Some y => String.leb x y
              | None => false
              end).

(** The tables of method names are searched by bisection, so they are
    kept sorted in byte order. *)
Fixpoint is_sorted (l : list string) : bool :=
  match l with
  | x :: (y :: _) as rest => String.leb x y && is_sorted rest
  | _ => true
  end.

Section WithEnvironment.

(** What the package takes from outside this file: the URL parser, the
    two sorted tables of method names and the default duration. *)
Variable urlx_Parse : string -> URL + error.
Variable httpMethods : list string.
Variable cantHaveBody : list string.
Variable defaultTestDuration : Z.

Definition testType (c : Config) : testTyp :=
  match NumReqs c with
  | Some _ => counted
  | None =>
      match Duration c with
      | Some _ => timed
      | None => none
      end
  end.

Definition checkOrSetDefaultTestType (c : Config) : Config :=
  if testTyp_eqb (testType c) none
  then set_Duration c (Some defaultTestDuration)
  else c.

Definition checkURL (c : Config) : Config * option error :=
  match urlx_Parse (Url c) with
  | inr err => (c, Some err)
  | inl url =>
      if String.eqb (Host url) EmptyString
         || (negb (String.eqb (Scheme url) "http")
             && negb (String.eqb (Scheme url) "https"))
      then (c, Some errInvalidURL)
      else (set_Url c (URL_String url), None)
  end.

Definition checkRate (c : Config) : option error :=
  match Rate c with
  | Some r => if r <? 1 then Some errZeroRate else None
  | None => None
  end.

(** [*c.NumReqs] and [*c.Duration] are only read behind a test type that
    makes the pointer non-nil. *)
Definition checkRunParameters (c : Config) : option error :=
  if NumConns c <? 1 then Some errInvalidNumberOfConns
  else if testTyp_eqb (testType c) counted
          && match NumReqs c with Some n => n <? 1 | None => false end
  then Some errInvalidNumberOfRequests
  else if testTyp_eqb (testType c) timed
          && match Duration c with
             | Some d => d <? time_Second
             | None => false
             end
  then Some errInvalidTestDuration
  else None.

Definition checkTimeoutDuration (c : Config) : option error :=
  if Timeout c <? 0 then Some errNegativeTimeout else None.

Definition allowedHTTPMethod (method : string) : bool :=
  let i := sort_SearchStrings httpMethods method in
  (i <? length httpMethods)%nat
  && match httpMethods !! i with
     | Some m => String.eqb m method
     | None => false
     end.

Definition canHaveBody (method : string) : bool :=
  let i := sort_SearchStrings cantHaveBody method in
  negb ((i <? length cantHaveBody)%nat
        && match cantHaveBody !! i with
           | Some m => String.eqb m method
           | None => false
           end).

Definition checkHTTPParameters (c : Config) : option error :=
  if negb (allowedHTTPMethod (Method c))
  then Some (invalidHTTPMethodError (Method c))
  else if negb (canHaveBody (Method c))
          && (negb (String.eqb (Body c) EmptyString)
              || negb (String.eqb (BodyFilePath c) EmptyString))
  then Some errBodyNotAllowed
  else if negb (String.eqb (Body c) EmptyString)
          && negb (String.eqb (BodyFilePath c) EmptyString)
  then Some errBodyProvidedTwice
  else None.

Definition checkCertPaths (c : Config) : option error :=
  if negb (String.eqb (CertPath c) EmptyString)
     && String.eqb (KeyPath c) EmptyString
  then Some errNoPathToKey
  else if String.eqb (CertPath c) EmptyString
          && negb (String.eqb (KeyPath c) EmptyString)
  then Some errNoPathToCert
  else None.

(** The list [checks] of [checkArgs].  Each check works on the one
    [Config] behind the receiver, so it returns it next to its error. *)
Definition checks : list (Config -> Config * option error) :=
  [ checkURL;
    (fun c => (c, checkRate c));
    (fun c => (c, checkRunParameters c));
    (fun c => (c, checkTimeoutDuration c));
    (fun c => (c, checkHTTPParameters c));
    (fun c => (c, checkCertPaths c)) ].

(** The loop over [checks]: stops at the first error. *)
Fixpoint run_checks (cs : list (Config -> Config * option error))
  (c : Config) : Config * option error :=
  match cs with
  | [] => (c, None)
  | check :: cs' =>
      match check c with
      | (c', Some err) => (c', Some err)
      | (c', None) => run_checks cs' c'
      end
  end.

(** [(c *Config) checkArgs()]: the configuration after the call and the
    error returned. *)
Definition checkArgs (c : Config) : Config * option error :=
  run_checks checks (checkOrSetDefaultTestType c).

End WithEnvironment.

(** What [checkArgs] asks of a configuration, in the order of its
    checks: a URL that parses to http or https with a host, a rate of at
    least 1 if any, at least one connection, at least one request if a
    count is given, else at least a second of duration (the default one
    if none is given), a timeout that is not negative, a known method, a
    body only where the method can carry one and from one source only,
    and a certificate and a key together or not at all. *)
Definition acceptable (urlx_Parse : string -> URL + error)
  (httpMethods cantHaveBody : list string) (defaultTestDuration : Z)
  (c : Config) : Prop :=
  (exists url,
     urlx_Parse (Url c) = inl url /\ Host url <> EmptyString /\
     (Scheme url = "http" \/ Scheme url = "https")%string) /\
  (forall r, Rate c = Some r -> 1 <= r) /\
  1 <= NumConns c /\
  (forall n, NumReqs c = Some n -> 1 <= n) /\
  (NumReqs c = None -> forall d, Duration c = Some d -> time_Second <= d) /\
  (NumReqs c = None -> Duration c = None ->
   time_Second <= defaultTestDuration) /\
  0 <= Timeout c /\
  allowedHTTPMethod httpMethods (Method c) = true /\
  (canHaveBody cantHaveBody (Method c) = false ->
   Body c = EmptyString /\ BodyFilePath c = EmptyString) /\
  (Body c = EmptyString \/ BodyFilePath c = EmptyString) /\
  (CertPath c = EmptyString <-> KeyPath c = EmptyString).

(** [(c *Config) timeoutMillis()]: an [int64] division, which truncates,
    and the conversion of the quotient to [uint64]. *)
Definition timeoutMillis (c : Config) : Z :=
  wrap64 (Z.quot (Timeout c) 1000).

End Validation.

(** ** The byte-counting connection *)

Module ByteCount.

(** The two totals the pointers [bytesRead] and [bytesWritten] of a
    [countingConn] point to: fields of the one [Bombardier], shared by
    every connection of the run. *)
Record totals : Type := mkTotals {
  bytesRead : Z;
  bytesWritten : Z
}.

(** [(cc *countingConn) Read(b)].  [under] is what [cc.Conn.Read(b)]
    returned: the count and the error ([None] for [nil]). *)
Definition Read (t : totals) (under : Z * option error)
  : totals * (Z * option error) :=
  let '(n, err) := under in
  match err with
  | None => (mkTotals (atomic_AddInt64 (bytesRead t) n) (bytesWritten t),
             (n, err))
  | Some _ => (t, (n, err))
  end.

(** [(cc *countingConn) Write(b)]. *)
Definition Write_ (t : totals) (under : Z * option error)
  : totals * (Z * option error) :=
  let '(n, err) := under in
  match err with
  | None => (mkTotals (bytesRead t) (atomic_AddInt64 (bytesWritten t) n),
             (n, err))
  | Some _ => (t, (n, err))
  end.

(** A call on a counting connection, with what the underlying
    connection returned to it. *)
Inductive transfer : Type :=
| ReadCall (under : Z * option error)
| WriteCall (under : Z * option error).

(** The shared totals after such a call. *)
Definition account (t : totals) (c : transfer) : totals :=
  match c with
  | ReadCall under => fst (Read t under)
  | WriteCall under => fst (Write_ t under)
  end.

(** The bytes of the calls that returned no error, per direction. *)
Fixpoint read_without_error (cs : list transfer) : Z :=
  match cs with
  | [] => 0
  | ReadCall (n, None) :: cs' => n + read_without_error cs'
  | _ :: cs' => read_without_error cs'
  end.

Fixpoint written_without_error (cs : list transfer) : Z :=
  match cs with
  | [] => 0
  | WriteCall (n, None) :: cs' => n + written_without_error cs'
  | _ :: cs' => written_without_error cs'
  end.

End ByteCount.

(** ** The bombardier: construction, statistics, workers *)

Module Core.

Import Completion Validation.

(** The latency histogram is a value of an imported package
    (codesenberg/concurrent, [uhist]), of which the bombardier calls
    [Increment] only.  It is kept as the map from a key to the number of
    increments made at it. *)
Definition histogram : Type := gmap Z nat.

Definition hist_count (h : gmap Z nat) (k : Z) : nat := default 0%nat (h !! k).

Definition hist_Increment (h : gmap Z nat) (k : Z) : gmap Z nat :=
  <[k := S (hist_count h k)]> h.

(** Modelled from the spec: the error map ([errorMap] is declared in a
    file that is not among the sources).  The spec: a mapping from the
    canonical error string to its occurrence count, with increment. *)
Definition errorMap : Type := gmap string nat.

Definition errors_add (m : gmap string nat) (msg : string) : gmap string nat :=
  <[msg := S (default 0%nat (m !! msg))]> m.

Inductive limiter : Type :=
| bucketLimiter (rate : Z)
| nooplimiter.

(** The fields of [Bombardier] that the modelled methods read or write. *)
Record Bombardier : Type := mkBombardier {
  traffic : ByteCount.totals;
  req1xx : Z;
  req2xx : Z;
  req3xx : Z;
  req4xx : Z;
  req5xx : Z;
  others : Z;
  Conf : Config;
  Barrier : completionBarrier;
  ratelimiter : limiter;
  latencies : gmap Z nat;
  reqs : Z;
  errors : gmap string nat
}.

(** The six status counters, in declaration order. *)
Definition counters (b : Bombardier) : list Z :=
  [req1xx b; req2xx b; req3xx b; req4xx b; req5xx b; others b].

(** The number of positions at which two lists of counters differ. *)
Definition differing (xs ys : list Z) : nat :=
  length (List.filter (fun p => negb (fst p =? snd p)) (zip xs ys)).

(** What the pointer [counter] of [writeStatistics] can point to. *)
Inductive counterRef : Type :=
| ref_req1xx
| ref_req2xx
| ref_req3xx
| ref_req4xx
| ref_req5xx
| ref_others.

(** [atomic.AddUint64(counter, 1)] through such a pointer. *)
Definition add_one (b : Bombardier) (counter : counterRef) : Bombardier :=
  let inc := fun v => atomic_AddUint64 v 1 in
  match counter with
  | ref_req1xx =>
      mkBombardier (traffic b) (inc (req1xx b)) (req2xx b) (req3xx b)
        (req4xx b) (req5xx b) (others b) (Conf b) (Barrier b)
        (ratelimiter b) (latencies b) (reqs b) (errors b)
  | ref_req2xx =>
      mkBombardier (traffic b) (req1xx b) (inc (req2xx b)) (req3xx b)
        (req4xx b) (req5xx b) (others b) (Conf b) (Barrier b)
        (ratelimiter b) (latencies b) (reqs b) (errors b)
  | ref_req3xx =>
      mkBombardier (traffic b) (req1xx b) (req2xx b) (inc (req3xx b))
        (req4xx b) (req5xx b) (others b) (Conf b) (Barrier b)
        (ratelimiter b) (latencies b) (reqs b) (errors b)
  | ref_req4xx =>
      mkBombardier (traffic b) (req1xx b) (req2xx b) (req3xx b)
        (inc (req4xx b)) (req5xx b) (others b) (Conf b) (Barrier b)
        (ratelimiter b) (latencies b) (reqs b) (errors b)
  | ref_req5xx =>
      mkBombardier (traffic b) (req1xx b) (req2xx b) (req3xx b)
        (req4xx b) (inc (req5xx b)) (others b) (Conf b) (Barrier b)
        (ratelimiter b) (latencies b) (reqs b) (errors b)
  | ref_others =>
      mkBombardier (traffic b) (req1xx b) (req2xx b) (req3xx b)
        (req4xx b) (req5xx b) (inc (others b)) (Conf b) (Barrier b)
        (ratelimiter b) (latencies b) (reqs b) (errors b)
  end.

(** [writeStatistics(code, msTaken)].  [code / 100] is Go's division on
    [int], which truncates towards zero: [Z.quot]. *)
Definition writeStatistics (b : Bombardier) (code msTaken : Z) : Bombardier :=
  let b1 :=
    mkBombardier (traffic b) (req1xx b) (req2xx b) (req3xx b) (req4xx b)
      (req5xx b) (others b) (Conf b) (Barrier b) (ratelimiter b)
      (hist_Increment (latencies b) msTaken) (wrapS64 (reqs b + 1))
      (errors b) in
  let counter :=
    match Z.quot code 100 with
    | 1 => ref_req1xx
    | 2 => ref_req2xx
    | 3 => ref_req3xx
    | 4 => ref_req4xx
    | 5 => ref_req5xx
    | _ => ref_others
    end in
  add_one b1 counter.

(** [performSingleRequest()].  [response] is what [b.client.do()]
    returned: the code, the time taken and the error, [None] for [nil];
    an error is given by its canonical string. *)
Definition performSingleRequest (b : Bombardier)
  (response : Z * Z * option string) : Bombardier :=
  let '(code, msTaken, err) := response in
  let b1 :=
    match err with
    | Some msg =>
        mkBombardier (traffic b) (req1xx b) (req2xx b) (req3xx b) (req4xx b)
          (req5xx b) (others b) (Conf b) (Barrier b) (ratelimiter b)
          (latencies b) (reqs b) (errors_add (errors b) msg)
    | None => b
    end in
  writeStatistics b1 code msTaken.

Section WithEnvironment.

Variable urlx_Parse : string -> URL + error.
Variable httpMethods : list string.
Variable cantHaveBody : list string.
Variable defaultTestDuration : Z.
(** [time.Now()] when the barrier is made, in nanoseconds. *)
Variable now : Z.
(** [tls.LoadX509KeyPair(certPath, keyPath)]: its error, if any. *)
Variable tls_LoadX509KeyPair : string -> string -> option error.
(** [ioutil.ReadFile(path)] *)
Variable ioutil_ReadFile : string -> string + error.
(** [knownFormat.template()] and the parse of a template text. *)
Variable knownFormat_template : string -> string.
Variable template_Parse : string -> option error.

(** [readClientCert], then [generateTLSConfig]: only the error matters
    to the caller modelled here. *)
Definition generateTLSConfig (c : Config) : option error :=
  if negb (String.eqb (CertPath c) EmptyString)
     && negb (String.eqb (KeyPath c) EmptyString)
  then tls_LoadX509KeyPair (CertPath c) (KeyPath c)
  else None.

(** [prepareTemplate()]: panics on a nil format. *)
Definition prepareTemplate (c : Config) : result unit :=
  match Format c with
  | None => Panic
  | Some (knownFormat name) =>
      match template_Parse (knownFormat_template name) with
      | Some err => Err err
      | None => Ok tt
      end
  | Some (userDefinedTemplate path) =>
      match ioutil_ReadFile path with
      | inr err => Err err
      | inl text =>
          match template_Parse text with
          | Some err => Err err
          | None => Ok tt
          end
      end
  end.

(** The choice of the barrier in [NewBombardier]; a nil [Duration] on the
    timed branch would be a nil dereference. *)
Definition makeBarrier (c : Config) : option completionBarrier :=
  if testTyp_eqb (testType c) counted then
    match NumReqs c with
    | Some n => Some (Counting (newCountingCompletionBarrier n))
    | None => None
    end
  else
    match Duration c with
    | Some d => Timed <$> newTimedCompletionBarrier now d
    | None => None
    end.

(** [NewBombardier(c)].  The progress bar exists only for a test type
    other than [none]; setting [ManualUpdate] on a nil bar panics.  So
    does [b.workers.Add(int(c.NumConns))] when the conversion to a 64-bit
    [int] is negative. *)
Definition NewBombardier (c0 : Config) : result Bombardier :=
  match checkArgs urlx_Parse httpMethods cantHaveBody defaultTestDuration c0 with
  | (_, Some err) => Err err
  | (c, None) =>
      if testTyp_eqb (testType c) none then Panic
      else
        match makeBarrier c with
        | None => Panic
        | Some barrier =>
            let rl := match Rate c with
                      | Some r => bucketLimiter r
                      | None => nooplimiter
                      end in
            match generateTLSConfig c with
            | Some err => Err err
            | None =>
                match
                  (if negb (Stream c)
                      && negb (String.eqb (BodyFilePath c) EmptyString)
                   then match ioutil_ReadFile (BodyFilePath c) with
                        | inr err => Some err
                        | inl _ => None
                        end
                   else None)
                with
                | Some err => Err err
                | None =>
                    match prepareTemplate c with
                    | Panic => Panic
                    | Err err => Err err
                    | Ok _ =>
                        if two63 <=? NumConns c then Panic
                        else
                          Ok (mkBombardier (ByteCount.mkTotals 0 0)
                                0 0 0 0 0 0 c barrier rl ∅ 0 ∅)
                    end
                end
            end
        end
  end.

End WithEnvironment.

(** *** Workers

    [Bombard] starts [NumConns] goroutines, each running [worker]:

    [for b.Barrier.tryGrabWork() { if pace(done) == brk { break };
       performSingleRequest(); b.Barrier.jobDone() }]

    The goroutines share the barrier and touch it through atomic
    operations only: the poll of the done-channel and the atomic add in
    [tryGrabWork], the atomic add and the once-guarded close in
    [jobDone].  A worker is at one of these operations, at its [pace] or
    at its request, or has returned.  The scheduler picks which worker
    makes its next operation, so a run is a sequence of such picks,
    interleaved with calls of [Cancel] from the signal handler and, on a
    timed barrier, with the expiry of its timer. *)

Inductive paceResult : Type := cont | brk.

Inductive position : Type :=
(** in [tryGrabWork], at the [select] on the done-channel *)
| AtSelect
(** in [tryGrabWork], at the atomic add, having seen the channel open *)
| AtAddGrabbed
| AtPace
| AtPerformSingleRequest
(** in [jobDone], at the atomic add *)
| AtAddDone
(** in [jobDone], at [closeOnce.Do], the add having returned the total *)
| AtCloseOnce
| Returned.

Record pool : Type := mkPool {
  barrier : completionBarrier;
  workers : list position;
  (** number of [tryGrabWork] calls that returned true *)
  grabbed : nat;
  (** number of [performSingleRequest] calls, one [client.do] each *)
  issued : nat
}.

(** The limiter is not among the sources: what [pace] returns is part of
    the event. *)
Inductive event : Type :=
| Next (i : nat) (paced : paceResult)
| Interrupt
| Deadline.

(** Worker [i] moves to position [p]. *)
Definition move (s : pool) (b : completionBarrier) (i : nat) (p : position)
  : pool :=
  mkPool b (<[i := p]> (workers s)) (grabbed s) (issued s).

Definition granted (s : pool) : pool :=
  mkPool (barrier s) (workers s) (S (grabbed s)) (issued s).

Definition requested (s : pool) : pool :=
  mkPool (barrier s) (workers s) (grabbed s) (S (issued s)).

Definition step (s : pool) (e : event) : option pool :=
  match e with
  | Interrupt =>
      match b_Cancel (barrier s) with
      | None => None
      | Some b' => Some (mkPool b' (workers s) (grabbed s) (issued s))
      end
  | Deadline =>
      match perform (barrier s) CallTimer with
      | None => None
      | Some b' => Some (mkPool b' (workers s) (grabbed s) (issued s))
      end
  | Next i paced =>
      match workers s !! i with
      | None | Some Returned => Some s
      | Some AtSelect =>
          if chan_closed (b_done (barrier s))
          then Some (move s (barrier s) i Returned)
          else
            match barrier s with
            | Counting _ => Some (move s (barrier s) i AtAddGrabbed)
            | Timed _ => Some (granted (move s (barrier s) i AtPace))
            end
      | Some AtAddGrabbed =>
          match barrier s with
          | Counting c =>
              let '(ok, c') := tryGrabWork_add c in
              if ok then Some (granted (move s (Counting c') i AtPace))
              else Some (move s (Counting c') i Returned)
          | Timed _ => Some s
          end
      | Some AtPace =>
          match paced with
          | brk => Some (move s (barrier s) i Returned)
          | cont => Some (move s (barrier s) i AtPerformSingleRequest)
          end
      | Some AtPerformSingleRequest =>
          Some (requested (move s (barrier s) i AtAddDone))
      | Some AtAddDone =>
          match barrier s with
          | Counting c =>
              let '(reqsDone', c') := jobDone_add c in
              if reqsDone' =? numReqs c
              then Some (move s (Counting c') i AtCloseOnce)
              else Some (move s (Counting c') i AtSelect)
          | Timed _ => Some (move s (barrier s) i AtSelect)
          end
      | Some AtCloseOnce =>
          match barrier s with
          | Counting c =>
              match closeOnce_Do c with
              | None => None
              | Some c' => Some (move s (Counting c') i AtSelect)
              end
          | Timed _ => Some s
          end
      end
  end.

Fixpoint run (s : pool) (es : list event) : option pool :=
  match es with
  | [] => Some s
  | e :: es' =>
      match step s e with
      | None => None
      | Some s' => run s' es'
      end
  end.

(** A counted run of [n] workers for [k] requests, before its first step. *)
Definition counted_run (k : Z) (n : nat) : pool :=
  mkPool (Counting (newCountingCompletionBarrier k))
    (replicate n AtSelect) 0 0.

(** Every worker has returned: [b.workers.Wait()] is over. *)
Definition all_returned (s : pool) : Prop :=
  Forall (fun p => p = Returned) (workers s).

(** No cancellation, no timer, and the limiter always says [cont]. *)
Definition undisturbed (es : list event) : Prop :=
  Forall (fun e => exists i, e = Next i cont) es.

(** One round of worker [i] in an undisturbed run, short of the last:
    select, add, pace, request, add. *)
Definition round (i : nat) : list event := replicate 5 (Next i cont).

Fixpoint rounds (j i : nat) : list event :=
  match j with
  | O => []
  | S j' => rounds j' i ++ round i
  end.

(** Two workers and the largest request count a [uint64] holds: worker 0
    grabs and stalls before its request, worker 1 makes all rounds but
    one, grabs again and makes its request, and then worker 0 makes
    its own. *)
Definition largest_count : Z := two64 - 1.

Definition overrun_end : list event :=
  [Next 1 cont; Next 1 cont; Next 1 cont; Next 1 cont;
   Next 0 cont; Next 0 cont].

Definition overrun : list event :=
  Next 0 cont :: Next 0 cont
  :: rounds (Z.to_nat (largest_count - 1)) 1 ++ overrun_end.

(** The pool after worker 0 has grabbed and worker 1 has made [j]
    rounds. *)
Definition after_rounds (k : Z) (j : nat) : pool :=
  mkPool
    (Counting (mkCounting k (1 + Z.of_nat j) (Z.of_nat j) make_chan false))
    [AtPace; AtSelect] (S j) j.

(** Counting workers by position: the sum of [f] over the pool. *)
Fixpoint tally (f : position -> nat) (ws : list position) : nat :=
  match ws with
  | [] => 0
  | w :: ws' => f w + tally f ws'
  end%nat.

Definition has_returned (p : position) : nat :=
  match p with Returned => 1 | _ => 0 end%nat.

(** Between a granted grab and the request. *)
Definition is_waiting (p : position) : nat :=
  match p with AtPace | AtPerformSingleRequest => 1 | _ => 0 end%nat.

(** Between a granted grab and the add of [jobDone]. *)
Definition in_flight (p : position) : nat :=
  match p with
  | AtPace | AtPerformSingleRequest | AtAddDone => 1
  | _ => 0
  end%nat.

Definition request_made (p : position) : nat :=
  match p with AtAddDone => 1 | _ => 0 end%nat.

Definition about_to_close (p : position) : nat :=
  match p with AtCloseOnce => 1 | _ => 0 end%nat.

(** Operations a worker still has to make before its next granted grab,
    counted from the end. *)
Definition rank (p : position) : nat :=
  match p with
  | AtPace => 6
  | AtPerformSingleRequest => 5
  | AtAddDone => 4
  | AtCloseOnce => 3
  | AtSelect => 2
  | AtAddGrabbed => 1
  | Returned => 0
  end%nat.

(** An upper bound on the operations an undisturbed counted run for [k]
    requests can still make. *)
Definition remaining (k : Z) (s : pool) : Z :=
  6 * (k - Z.of_nat (grabbed s)) + Z.of_nat (tally rank (workers s)).

(** What every counted run for [k] requests with [n] workers keeps. *)
Definition safe (k : Z) (n : nat) (s : pool) : Prop :=
  exists c,
    barrier s = Counting c /\ numReqs c = k /\ once_guards (Counting c) /\
    length (workers s) = n /\
    0 <= reqsGrabbed c /\
    reqsGrabbed c
    <= Z.of_nat (grabbed s) + Z.of_nat (tally has_returned (workers s)) /\
    Z.of_nat (grabbed s) = Z.min (reqsGrabbed c) k /\
    (issued s + tally is_waiting (workers s) <= grabbed s)%nat /\
    0 <= reqsDone c /\
    Z.of_nat (issued s)
    = reqsDone c + Z.of_nat (tally request_made (workers s)).

(** What an undisturbed run keeps besides. *)
Definition steady (k : Z) (n : nat) (s : pool) : Prop :=
  safe k n s /\
  exists c,
    barrier s = Counting c /\
    Z.of_nat (grabbed s)
    = reqsDone c + Z.of_nat (tally in_flight (workers s)) /\
    (chan_closed (doneChan c) = true -> reqsDone c = k) /\
    ((1 <= tally about_to_close (workers s))%nat -> reqsDone c = k) /\
    ((1 <= tally has_returned (workers s))%nat ->
     chan_closed (doneChan c) = true \/ k < reqsGrabbed c).

(** Past the [select] of [tryGrabWork] and not yet past the request:
    such a worker does not look at the done-channel again before its
    request, unless its limiter does. *)
Definition owes_request (p : position) : nat :=
  match p with
  | AtAddGrabbed | AtPace | AtPerformSingleRequest => 1
  | _ => 0
  end%nat.

(** The limiter never says [brk]. *)
Definition unbroken (es : list event) : Prop :=
  Forall (fun e => forall i, e <> Next i brk) es.

(** What a counted run for [k] requests keeps as long as the limiter
    never says [brk], cancelled or not. *)
Definition settling (k : Z) (n : nat) (s : pool) : Prop :=
  safe k n s /\
  exists c,
    barrier s = Counting c /\
    Z.of_nat (grabbed s)
    = reqsDone c + Z.of_nat (tally in_flight (workers s)) /\
    (k <= reqsDone c ->
     chan_closed (doneChan c) = true \/
     (1 <= tally about_to_close (workers s))%nat) /\
    ((1 <= tally has_returned (workers s))%nat ->
     chan_closed (doneChan c) = true \/ k < reqsGrabbed c).

(** A timed run of [n] workers, before its first step: the barrier is
    the one [newTimedCompletionBarrier] makes at [now] for a duration
    [d] that is not negative. *)
Definition timed_run (now d : Z) (n : nat) : pool :=
  mkPool (Timed (mkTimed make_chan false now d)) (replicate n AtSelect) 0 0.

(** The positions a worker of a timed run is never at. *)
Definition counted_only (p : position) : nat :=
  match p with AtAddGrabbed | AtCloseOnce => 1 | _ => 0 end%nat.

(** What every timed run with [n] workers keeps. *)
Definition timed_safe (n : nat) (s : pool) : Prop :=
  exists t,
    barrier s = Timed t /\ once_guards (Timed t) /\
    length (workers s) = n /\
    tally counted_only (workers s) = 0%nat /\
    (issued s + tally is_waiting (workers s) <= grabbed s)%nat /\
    (grabbed s
     <= issued s + tally is_waiting (workers s)
        + tally has_returned (workers s))%nat.

(** What a timed run keeps besides until it is disturbed. *)
Definition timed_open (n : nat) (s : pool) : Prop :=
  timed_safe n s /\
  exists t,
    barrier s = Timed t /\ chan_closed (tDoneChan t) = false /\
    tally has_returned (workers s) = 0%nat.

(** [m] rounds of worker 0 in a timed run: select, pace, request and
    [jobDone] each. *)
Definition timed_rounds (m : nat) : list event :=
  replicate (4 * m) (Next 0 cont).

(** The status classes the [switch] of [writeStatistics] tells apart:
    the five cases and its [default]. *)
Definition class_is (i q : Z) : bool := q =? i.

Definition class_other (q : Z) : bool := (q <? 1) || (5 <? q).

(** The responses among [rs] whose status class [code / 100]
    satisfies [q]. *)
Definition of_class (q : Z -> bool) (rs : list (Z * Z * option string))
  : nat :=
  length (List.filter (fun r => q (Z.quot (fst (fst r)) 100)) rs).

(** The responses among [rs] that took [ms]. *)
Definition with_latency (ms : Z) (rs : list (Z * Z * option string)) : nat :=
  length (List.filter (fun r => snd (fst r) =? ms) rs).

(** The responses among [rs] that came with the error [msg]. *)
Definition with_error (msg : string) (rs : list (Z * Z * option string))
  : nat :=
  length (List.filter
            (fun r => match snd r with
                      | Some m => String.eqb m msg
                      | None => false
                      end) rs).

Definition errors_count (m : gmap string nat) (msg : string) : nat :=
  default 0%nat (m !! msg).

(** [b] with another configuration. *)
Definition with_Conf (b : Bombardier) (c : Config) : Bombardier :=
  mkBombardier (traffic b) (req1xx b) (req2xx b) (req3xx b) (req4xx b)
    (req5xx b) (others b) c (Barrier b) (ratelimiter b) (latencies b)
    (reqs b) (errors b).

(** Two outcomes of [NewBombardier] that differ at most in the
    [Duration] kept in the configuration, which is [d] in the second. *)
Definition same_but_Duration (d : option Z)
  (r r' : result Bombardier) : Prop :=
  match r, r' with
  | Ok b, Ok b' => b' = with_Conf b (set_Duration (Conf b) d)
  | Err e, Err e' => e = e'
  | Panic, Panic => True
  | _, _ => False
  end.

(** An environment and configurations to run the definitions on. *)
Module Sample.

Definition urlx_Parse (s : string) : URL + error :=
  if String.eqb s EmptyString then inr (libraryError "empty url")
  else inl (mkURL "http" "localhost:8080" s).

Definition httpMethods : list string :=
  ["CONNECT"; "DELETE"; "GET"; "HEAD"; "OPTIONS"; "PATCH"; "POST"; "PUT";
   "TRACE"].

Definition cantHaveBody : list string := ["GET"; "HEAD"].

Definition defaultTestDuration : Z := 10 * time_Second.

Definition no_key_pair (cert key : string) : option error := None.

Definition no_file (path : string) : string + error :=
  inr (libraryError "no such file").

Definition any_template (name : string) : string := name.

Definition parses (text : string) : option error := None.

(** [bombardier -c 125 http://localhost:8080], before the flags that set
    the run's length. *)
Definition config (reqs dur rate : option Z) : Config :=
  mkConfig 125 reqs dur "http://localhost:8080" "GET" "" "" "" "" false
    (Some []) 2000000000 false false rate fhttp true true true
    (Some (knownFormat "plain-text")).

Definition check (c : Config) : Config * option error :=
  checkArgs urlx_Parse httpMethods cantHaveBody defaultTestDuration c.

Definition make (c : Config) : result Bombardier :=
  NewBombardier urlx_Parse httpMethods cantHaveBody defaultTestDuration 0
    no_key_pair no_file any_template parses c.

(** The responses of a server that rotates its status codes, one
    microsecond apart in latency, and one failed request. *)
Definition rotation : list (Z * Z * option string) :=
  [(102, 11, None); (200, 12, None); (302, 13, None); (404, 14, None);
   (505, 15, None); (606, 16, None); (707, 17, None);
   (0, 2000000, Some "timeout")].

Definition fresh : Bombardier :=
  mkBombardier (ByteCount.mkTotals 0 0) 0 0 0 0 0 0
    (config (Some 8) None None)
    (Counting (newCountingCompletionBarrier 8)) nooplimiter ∅ 0 ∅.

End Sample.

End Core.

(** ** Proof steps *)

(** Reads the state after a step off the equation that computed it. *)
Ltac pick_step E :=
  simpl in E; injection E as <-.

(** Closes the clauses of the run invariants after a step: arithmetic on
    the tallies, or a fact about the channel taken from the clause named. *)
Ltac settle Hcl Hatc Hret :=
  repeat split; auto; try lia;
  try (intros;
       first
         [ lia
         | congruence
         | right; lia
         | left; assumption
         | specialize (Hcl ltac:(assumption)); lia
         | specialize (Hatc ltac:(lia)); lia
         | destruct Hret as [? | ?]; [lia | left; assumption | right; lia] ]).

(** Closes the clauses of [settling] after a step, from the clauses
    before it. *)
Ltac resettle Hcls Hret :=
  split; [lia |]; split; intros;
  first
    [ left; reflexivity
    | left; assumption
    | right; lia
    | destruct (Hcls ltac:(lia)) as [? | ?]; [left; assumption | right; lia]
    | destruct (Hret ltac:(lia)) as [? | ?]; [left; assumption | right; lia] ].

(** * Properties *)

(** ** Machine integers *)

Lemma two64_eq : two64 = 18446744073709551616.
Proof. reflexivity. Qed.

Lemma two63_eq : two63 = 9223372036854775808.
Proof. reflexivity. Qed.

Lemma wrap64_range (x : Z) : is_uint64 (wrap64 x).
Proof. unfold is_uint64, wrap64. rewrite two64_eq. apply Z.mod_pos_bound. lia. Qed.

Lemma wrap64_small (x : Z) : is_uint64 x -> wrap64 x = x.
Proof. unfold is_uint64, wrap64. intros H. apply Z.mod_small. exact H. Qed.

(** The register never keeps its value through an increment. *)
Lemma wrap64_succ_ne (x : Z) : wrap64 (x + 1) <> x.
Proof.
  unfold wrap64. rewrite two64_eq. intros H.
  pose proof (Z.mod_pos_bound (x + 1) 18446744073709551616 ltac:(lia)) as Hb.
  destruct (Z.eq_dec (x + 1) 18446744073709551616) as [E | E].
  - rewrite E, Z.mod_same in H by lia. lia.
  - rewrite Z.mod_small in H by lia. lia.
Qed.

Lemma wrap64_max : wrap64 (two64 - 1 + 1) = 0.
Proof. reflexivity. Qed.

(** An increment that does not wrap. *)
Lemma atomic_AddUint64_room (v : Z) :
  0 <= v -> v + 1 < two64 -> atomic_AddUint64 v 1 = v + 1.
Proof.
  intros H0 H1. unfold atomic_AddUint64.
  apply wrap64_small. unfold is_uint64. lia.
Qed.

Lemma wrapS64_small (x : Z) : is_int64 x -> wrapS64 x = x.
Proof.
  unfold is_int64, wrapS64. rewrite two64_eq, two63_eq. intros H.
  rewrite Z.mod_small by lia. lia.
Qed.

(** ** The completion barrier *)

Module CompletionFacts.

Import Completion.

Lemma new_counting_guards (n : Z) :
  once_guards (Counting (newCountingCompletionBarrier n)).
Proof. split; reflexivity. Qed.

Lemma new_timed_guards (now d : Z) (t : timedCompletionBarrier) :
  newTimedCompletionBarrier now d = Some t -> once_guards (Timed t).
Proof.
  unfold newTimedCompletionBarrier. destruct (d <? 0); [discriminate |].
  intros [= <-]. split; reflexivity.
Qed.

(** The once-guarded close never panics while the guard and the channel
    agree, leaves the channel closed, and executes [close] only if the
    once had not fired. *)
Lemma closeOnce_Do_guarded (c : countingCompletionBarrier) :
  once_guards (Counting c) ->
  exists c',
    closeOnce_Do c = Some c' /\
    numReqs c' = numReqs c /\ reqsGrabbed c' = reqsGrabbed c /\
    reqsDone c' = reqsDone c /\
    chan_closed (doneChan c') = true /\ closeOnce c' = true /\
    chan_closes (doneChan c') =
      (chan_closes (doneChan c) + (if closeOnce c then 0 else 1))%nat /\
    once_guards (Counting c').
Proof.
  intros [Hc Hn]. simpl in Hc, Hn. unfold done in Hc, Hn.
  unfold closeOnce_Do, close.
  destruct (closeOnce c) eqn:Ho.
  - exists c. rewrite Ho. repeat split; auto; simpl; unfold done; try lia.
    + rewrite Ho. exact Hc.
    + rewrite Ho. exact Hn.
  - rewrite Hc. eexists. split; [reflexivity |]. simpl.
    repeat split; auto; try lia. simpl. unfold done. simpl. lia.
Qed.

Lemma tCloseOnce_Do_guarded (t : timedCompletionBarrier) :
  once_guards (Timed t) ->
  exists t',
    tCloseOnce_Do t = Some t' /\
    start t' = start t /\ duration t' = duration t /\
    chan_closed (tDoneChan t') = true /\ tCloseOnce t' = true /\
    chan_closes (tDoneChan t') =
      (chan_closes (tDoneChan t) + (if tCloseOnce t then 0 else 1))%nat /\
    once_guards (Timed t').
Proof.
  intros [Hc Hn]. simpl in Hc, Hn. unfold tDone in Hc, Hn.
  unfold tCloseOnce_Do, close.
  destruct (tCloseOnce t) eqn:Ho.
  - exists t. rewrite Ho. repeat split; auto; simpl; unfold tDone; try lia.
    + rewrite Ho. exact Hc.
    + rewrite Ho. exact Hn.
  - rewrite Hc. eexists. split; [reflexivity |]. simpl.
    repeat split; auto; try lia. simpl. unfold tDone. simpl. lia.
Qed.

Lemma once_guards_closes (b : completionBarrier) :
  once_guards b -> (chan_closes (b_done b) <= 1)%nat.
Proof. intros [_ Hn]. rewrite Hn. destruct (b_once b); lia. Qed.

Lemma tryGrabWork_keeps_channel (c : countingCompletionBarrier) :
  doneChan (snd (tryGrabWork c)) = doneChan c /\
  closeOnce (snd (tryGrabWork c)) = closeOnce c /\
  numReqs (snd (tryGrabWork c)) = numReqs c /\
  reqsDone (snd (tryGrabWork c)) = reqsDone c.
Proof. unfold tryGrabWork, tryGrabWork_add. destruct (chan_closed (doneChan c)); simpl; auto. Qed.

(** The calls from a barrier with [n] grabs made: the counter counts them
    as long as it has room. *)
Lemma grab_repeatedly_counts (k : Z) (n : N) :
  Z.of_N n < two64 ->
  grab_repeatedly n (newCountingCompletionBarrier k) =
  mkCounting k (Z.of_N n) 0 make_chan false.
Proof.
  unfold grab_repeatedly.
  induction n as [| n IH] using N.peano_ind; intros Hn.
  - reflexivity.
  - rewrite N.iter_succ, IH by lia.
    unfold tryGrabWork, tryGrabWork_add. simpl. unfold atomic_AddUint64.
    rewrite wrap64_small by (unfold is_uint64; lia).
    f_equal. lia.
Qed.

(** The saturated barrier is what [2^64 - 1] grabs leave of a new one. *)
Lemma saturated_reachable (k : Z) :
  grab_repeatedly 18446744073709551615 (newCountingCompletionBarrier k)
  = saturated k.
Proof.
  rewrite grab_repeatedly_counts.
  - reflexivity.
  - rewrite two64_eq. reflexivity.
Qed.

(** C2, as written, fails where the counter wraps: on a barrier for 5
    requests whose grab counter holds [2^64 - 1] the call returns true,
    although the value before the increment is not below the total. *)
Lemma tryGrabWork_wraps :
  ~ (fst (tryGrabWork (saturated 5)) = true <->
     reqsGrabbed (saturated 5) < numReqs (saturated 5)).
Proof.
  intros [H _].
  assert (E : fst (tryGrabWork (saturated 5)) = true) by reflexivity.
  specialize (H E). unfold saturated in H. simpl in H.
  rewrite two64_eq in H. lia.
Qed.

(** C2 (amended).  [tryGrabWork] returns false, and changes nothing, once
    the done-channel is closed.  Otherwise the counted barrier stores the
    grab counter incremented modulo [2^64] and returns whether that new
    value is at most the total; as long as the counter has not reached
    [2^64 - 1] this is the case exactly when the value before the
    increment was below the total.  The timed barrier returns true while
    its channel is open. *)
Theorem tryGrabWork_spec
  (c : countingCompletionBarrier) (t : timedCompletionBarrier) :
  (chan_closed (doneChan c) = true -> tryGrabWork c = (false, c)) /\
  (chan_closed (doneChan c) = false ->
   tryGrabWork c =
     (wrap64 (reqsGrabbed c + 1) <=? numReqs c,
      mkCounting (numReqs c) (wrap64 (reqsGrabbed c + 1)) (reqsDone c)
        (doneChan c) (closeOnce c))) /\
  (chan_closed (doneChan c) = false ->
   0 <= reqsGrabbed c < two64 - 1 ->
   reqsGrabbed (snd (tryGrabWork c)) = reqsGrabbed c + 1 /\
   (fst (tryGrabWork c) = true <-> reqsGrabbed c < numReqs c)) /\
  (chan_closed (tDoneChan t) = true -> tTryGrabWork t = (false, t)) /\
  (chan_closed (tDoneChan t) = false -> tTryGrabWork t = (true, t)).
Proof.
  unfold tryGrabWork, tryGrabWork_add, tTryGrabWork, atomic_AddUint64.
  repeat split.
  - intros ->. reflexivity.
  - intros ->. reflexivity.
  - rewrite H. simpl. apply wrap64_small. unfold is_uint64. lia.
  - rewrite H. simpl. rewrite wrap64_small by (unfold is_uint64; lia).
    intros Hle. apply Z.leb_le in Hle. lia.
  - rewrite H. simpl. rewrite wrap64_small by (unfold is_uint64; lia).
    intros Hlt. apply Z.leb_le. lia.
  - intros ->. reflexivity.
  - intros ->. reflexivity.
Qed.

Lemma tryGrabWork_spec_witness :
  tryGrabWork (mkCounting 2 1 0 make_chan false)
  = (true, mkCounting 2 2 0 make_chan false) /\
  (fst (tryGrabWork (mkCounting 2 1 0 make_chan false)) = true <-> 1 < 2).
Proof.
  pose proof (tryGrabWork_spec (mkCounting 2 1 0 make_chan false) overdue)
    as (_ & _ & H & _).
  split; [reflexivity |].
  apply H; [reflexivity | rewrite two64_eq; simpl; lia].
Defined.

Lemma jobDone_guarded (c : countingCompletionBarrier) :
  once_guards (Counting c) ->
  exists c',
    jobDone c = Some c' /\
    reqsDone c' = atomic_AddUint64 (reqsDone c) 1 /\
    numReqs c' = numReqs c /\ reqsGrabbed c' = reqsGrabbed c /\
    chan_closed (doneChan c') =
      (chan_closed (doneChan c)
       || (atomic_AddUint64 (reqsDone c) 1 =? numReqs c)) /\
    chan_closes (doneChan c') =
      (chan_closes (doneChan c) +
       (if ((atomic_AddUint64 (reqsDone c) 1 =? numReqs c)%Z
            && negb (chan_closed (doneChan c)))
        then 1 else 0))%nat /\
    (chan_closes (doneChan c') <= 1)%nat /\
    once_guards (Counting c').
Proof.
  intros Hg.
  unfold jobDone, jobDone_add.
  set (d' := atomic_AddUint64 (reqsDone c) 1).
  set (c1 := mkCounting (numReqs c) (reqsGrabbed c) d' (doneChan c) (closeOnce c)).
  assert (Hg1 : once_guards (Counting c1)) by exact Hg.
  destruct (d' =? numReqs c) eqn:Hd.
  - destruct (closeOnce_Do_guarded c1 Hg1)
      as (c' & E & Hn & Hgr & Hdn & Hcl & Ho & Hcnt & Hg').
    exists c'. split; [exact E |]. simpl in Hn, Hgr, Hdn, Hcnt.
    repeat split; auto.
    + rewrite Hcl. rewrite orb_true_r. reflexivity.
    + rewrite Hcnt. destruct Hg as [Hc _]. simpl in Hc. unfold done in Hc.
      rewrite Hc. destruct (closeOnce c); reflexivity.
    + apply (once_guards_closes _ Hg').
    + apply Hg'.
    + apply Hg'.
  - exists c1. split; [reflexivity |]. simpl.
    rewrite orb_false_r.
    repeat split; auto; try lia;
      try apply (once_guards_closes _ Hg); apply Hg1.
Qed.

(** C5.  On a counted barrier whose once guards its channel, [jobDone]
    stores the done counter incremented (modulo [2^64]) and touches no
    other counter; the channel is closed afterwards exactly if it was
    closed before or the new value equals the total; [close] is executed
    by the call exactly when the new value equals the total and the
    channel was still open, so at most once over the barrier's life.  On
    the timed barrier [jobDone] changes nothing. *)
Theorem jobDone_closes_at_total
  (c : countingCompletionBarrier) (t : timedCompletionBarrier) :
  once_guards (Counting c) ->
  (exists c',
     jobDone c = Some c' /\
     reqsDone c' = atomic_AddUint64 (reqsDone c) 1 /\
     numReqs c' = numReqs c /\ reqsGrabbed c' = reqsGrabbed c /\
     chan_closed (doneChan c') =
       (chan_closed (doneChan c)
        || (atomic_AddUint64 (reqsDone c) 1 =? numReqs c)) /\
     chan_closes (doneChan c') =
       (chan_closes (doneChan c) +
        (if ((atomic_AddUint64 (reqsDone c) 1 =? numReqs c)%Z
             && negb (chan_closed (doneChan c)))
         then 1 else 0))%nat /\
     (chan_closes (doneChan c') <= 1)%nat /\
     once_guards (Counting c')) /\
  tJobDone t = Some t.
Proof.
  intros Hg. split; [exact (jobDone_guarded c Hg) | reflexivity].
Qed.

Lemma jobDone_closes_at_total_witness :
  exists c',
    jobDone (mkCounting 2 2 1 make_chan false) = Some c' /\
    reqsDone c' = 2 /\ chan_closed (doneChan c') = true /\
    chan_closes (doneChan c') = 1%nat.
Proof.
  destruct (jobDone_closes_at_total (mkCounting 2 2 1 make_chan false) overdue)
    as [(c' & E & Hd & _ & _ & Hc & Hn & _) _].
  - split; reflexivity.
  - exists c'. repeat split; assumption.
Defined.

Lemma perform_guarded (b : completionBarrier) (e : call) :
  once_guards b ->
  exists b',
    perform b e = Some b' /\ once_guards b' /\
    (chan_closes (b_done b) <= chan_closes (b_done b'))%nat.
Proof.
  intros Hg. destruct e; simpl.
  - destruct b as [c | t]; simpl.
    + destruct (closeOnce_Do_guarded c Hg) as (c' & E & _ & _ & _ & _ & _ & Hn & Hg').
      exists (Counting c'). unfold Cancel. rewrite E. simpl.
      repeat split; try apply Hg'. simpl; unfold done, tDone; simpl; lia.
    + destruct (tCloseOnce_Do_guarded t Hg) as (t' & E & _ & _ & _ & _ & Hn & Hg').
      exists (Timed t'). unfold tCancel. rewrite E. simpl.
      repeat split; try apply Hg'. simpl; unfold done, tDone; simpl; lia.
  - destruct b as [c | t]; simpl.
    + destruct (jobDone_guarded c Hg)
        as (c' & E & _ & _ & _ & _ & Hn & _ & Hg').
      exists (Counting c'). rewrite E. simpl.
      repeat split; try apply Hg'. simpl; unfold done, tDone; simpl; lia.
    + exists (Timed t). repeat split; try apply Hg. simpl; lia.
  - eexists. split; [reflexivity |].
    destruct b as [c | t]; simpl.
    + destruct (tryGrabWork c) as [r c'] eqn:E. simpl.
      pose proof (tryGrabWork_keeps_channel c) as (H1 & H2 & _).
      rewrite E in H1, H2. simpl in H1, H2.
      destruct Hg as [Hc Hn]. simpl in Hc, Hn. unfold done in *.
      unfold once_guards. simpl. unfold done. rewrite H1, H2.
      repeat split; auto.
    + unfold tTryGrabWork. destruct (chan_closed (tDoneChan t)); simpl;
        (split; [exact Hg | simpl; lia]).
  - exists b. repeat split; try apply Hg. simpl; lia.
  - destruct b as [c | t]; simpl.
    + exists (Counting c). repeat split; try apply Hg. simpl; lia.
    + destruct (tCloseOnce_Do_guarded t Hg) as (t' & E & _ & _ & _ & _ & Hn & Hg').
      exists (Timed t'). unfold timerFired. rewrite E. simpl.
      repeat split; try apply Hg'. simpl; unfold done, tDone; simpl; lia.
Qed.

(** C6.  From a barrier whose once guards its channel (every new barrier
    is one), any sequence of [Cancel], [jobDone], [tryGrabWork] and
    [completed] calls and timer expiries, in any order and number, runs
    without a panic, and [close] has been executed on the done-channel at
    most once when it ends. *)
Theorem close_at_most_once (b : completionBarrier) (es : list call) :
  once_guards b ->
  exists b',
    perform_all b es = Some b' /\ once_guards b' /\
    (chan_closes (b_done b') <= 1)%nat /\
    (chan_closes (b_done b) <= chan_closes (b_done b'))%nat.
Proof.
  revert b. induction es as [| e es IH]; intros b Hg.
  - exists b. simpl. repeat split; try apply Hg; try lia.
    apply (once_guards_closes _ Hg).
  - destruct (perform_guarded b e Hg) as (b1 & E & Hg1 & Hle).
    destruct (IH b1 Hg1) as (b' & E' & Hg' & H1 & Hle').
    exists b'. simpl. rewrite E. repeat split; try apply Hg'; auto. lia.
Qed.

Lemma close_at_most_once_witness :
  exists b',
    perform_all (Counting (newCountingCompletionBarrier 1))
      [CallCancel; CallJobDone; CallCancel; CallJobDone; CallTimer] = Some b' /\
    (chan_closes (b_done b') <= 1)%nat.
Proof.
  destruct (close_at_most_once (Counting (newCountingCompletionBarrier 1))
              [CallCancel; CallJobDone; CallCancel; CallJobDone; CallTimer])
    as (b' & E & _ & H & _).
  - apply new_counting_guards.
  - exists b'. split; assumption.
Defined.

Lemma float64_one_is_one : is_one float64_one /\ in_unit_interval float64_one.
Proof.
  unfold is_one, in_unit_interval, float64_one.
  repeat split; try reflexivity; unfold Qle; simpl; lia.
Qed.

(** A quotient of integers with a positive divisor lies between 0 and 1
    exactly when the dividend lies between 0 and the divisor. *)
Lemma float64_div_unit (x y : Z) :
  0 < y -> (in_unit_interval (float64_div x y) <-> 0 <= x <= y).
Proof.
  intros Hy. unfold float64_div.
  destruct (Z.eqb_spec y 0) as [-> | _]; [lia |].
  destruct y as [| p | p]; try lia.
  unfold in_unit_interval, Qdiv, Qinv, Qmult, Qle. simpl.
  rewrite Pos.mul_1_l. lia.
Qed.




End CompletionFacts.

(** ** The header list *)

Module HeaderListFacts.

Import HeaderList.

Example SplitN_first_colon_only :
  SplitN "Location: http://localhost:666" colon 2
  = ["Location"; " http://localhost:666"].
Proof. reflexivity. Qed.

Example Trim_keeps_inner_spaces : Trim "  a b   " = "a b".
Proof. reflexivity. Qed.

Example Set_empty_value : Set_ [] "X-Empty:" = ([mkHeader "X-Empty" ""], None).
Proof. reflexivity. Qed.

Lemma cut_found (sep : ascii) (k rest : string) :
  occurs sep k = false ->
  cut sep (String.append k (String sep rest)) = Some (k, rest).
Proof.
  induction k as [| a k IH]; simpl; intros Hk.
  - rewrite Ascii.eqb_refl. reflexivity.
  - apply orb_false_elim in Hk as [Ha Hk].
    rewrite Ha, (IH Hk). reflexivity.
Qed.

Lemma cut_absent (sep : ascii) (s : string) :
  occurs sep s = false -> cut sep s = None.
Proof.
  induction s as [| a s IH]; simpl; intros Hs; [reflexivity |].
  apply orb_false_elim in Hs as [Ha Hs].
  rewrite Ha, (IH Hs). reflexivity.
Qed.

(** A string in which the separator occurs splits at its first
    occurrence. *)
Lemma occurs_split (sep : ascii) (s : string) :
  occurs sep s = true ->
  exists k rest,
    s = String.append k (String sep rest) /\ occurs sep k = false.
Proof.
  induction s as [| a s IH]; simpl; intros Hs; [discriminate |].
  destruct (Ascii.eqb a sep) eqn:Ha.
  - apply Ascii.eqb_eq in Ha as ->.
    exists EmptyString, s. split; reflexivity.
  - simpl in Hs. destruct (IH Hs) as (k & rest & -> & Hk).
    exists (String a k), rest. simpl. rewrite Ha, Hk. split; reflexivity.
Qed.

Lemma append_String (c : ascii) (s1 s2 : string) :
  String.append (String c s1) s2 = String c (String.append s1 s2).
Proof. reflexivity. Qed.

Lemma append_Empty (s : string) : String.append EmptyString s = s.
Proof. reflexivity. Qed.

Lemma TrimLeft_spec (s : string) :
  (exists a, s = String.append (spaces a) (TrimLeft s)) /\
  first_byte (TrimLeft s) <> Some space.
Proof.
  induction s as [| c s [[a Ha] Hf]]; simpl.
  - split; [exists 0%nat; reflexivity | discriminate].
  - destruct (Ascii.eqb c space) eqn:Hc.
    + apply Ascii.eqb_eq in Hc as ->. split; [| exact Hf].
      exists (S a). simpl. rewrite append_String. f_equal. exact Ha.
    + split; [exists 0%nat; reflexivity |].
      simpl. intros [= E]. subst c. rewrite Ascii.eqb_refl in Hc. discriminate.
Qed.

Lemma TrimRight_spec (s : string) :
  (exists b, s = String.append (TrimRight s) (spaces b)) /\
  last_byte (TrimRight s) <> Some space /\
  (first_byte s <> Some space -> first_byte (TrimRight s) <> Some space).
Proof.
  induction s as [| c s [[b Hb] [Hl Hf]]]; simpl.
  - split; [exists 0%nat; reflexivity |]. split; [discriminate | auto].
  - destruct (TrimRight s) as [| d r] eqn:Hr.
    + destruct (Ascii.eqb c space) eqn:Hc.
      * apply Ascii.eqb_eq in Hc as ->.
        split; [exists (S b); simpl; rewrite append_Empty; f_equal; rewrite Hb; reflexivity |].
        split; [discriminate |]. intros H. exfalso. apply H. reflexivity.
      * split; [exists b; rewrite append_String, append_Empty; f_equal; rewrite Hb; reflexivity |].
        assert (Hne : Some c <> Some space).
        { intros [= E]. subst c. rewrite Ascii.eqb_refl in Hc. discriminate. }
        split; [exact Hne | intros _; exact Hne].
    + split; [exists b; rewrite append_String; f_equal; exact Hb |].
      split; [exact Hl | intros H; exact H].
Qed.

(** [Trim] removes exactly the spaces at both ends. *)
Lemma Trim_spec (s : string) :
  (exists a b,
     s = String.append (spaces a) (String.append (Trim s) (spaces b))) /\
  first_byte (Trim s) <> Some space /\
  last_byte (Trim s) <> Some space.
Proof.
  unfold Trim.
  destruct (TrimLeft_spec s) as [[a Ha] Hf].
  destruct (TrimRight_spec (TrimLeft s)) as [[b Hb] [Hl Hf']].
  split; [| split].
  - exists a, b. rewrite <- Hb. exact Ha.
  - apply Hf'. exact Hf.
  - exact Hl.
Qed.

Lemma Set_with_colon (h : HeadersList) (k rest : string) :
  occurs colon k = false ->
  Set_ h (String.append k (String colon rest))
  = (h ++ [mkHeader k (Trim rest)], None).
Proof.
  intros Hk. unfold Set_.
  change (SplitN (String.append k (String colon rest)) colon 2)
    with (match cut colon (String.append k (String colon rest)) with
          | None => [String.append k (String colon rest)]
          | Some (before, after) => before :: SplitN after colon 1
          end).
  rewrite (cut_found colon k rest Hk). reflexivity.
Qed.

Lemma Set_without_colon (h : HeadersList) (v : string) :
  occurs colon v = false -> Set_ h v = (h, Some errInvalidHeaderFormat).
Proof.
  intros Hv. unfold Set_.
  change (SplitN v colon 2)
    with (match cut colon v with
          | None => [v]
          | Some (before, after) => before :: SplitN after colon 1
          end).
  rewrite (cut_absent colon v Hv). reflexivity.
Qed.

(** A successful call appends the header it would put on an empty list. *)
Lemma Set_appends (h : HeadersList) (v : string) :
  occurs colon v = true ->
  Set_ h v = (h ++ fst (Set_ [] v), None) /\ length (fst (Set_ [] v)) = 1%nat.
Proof.
  intros Hv. destruct (occurs_split colon v Hv) as (k & rest & -> & Hk).
  rewrite !Set_with_colon by assumption. split; reflexivity.
Qed.

Lemma Set_all_appends (vs : list string) (h : HeadersList) :
  Forall (fun v => occurs colon v = true) vs ->
  Set_all h vs
  = (h ++ concat (map (fun v => fst (Set_ [] v)) vs), map (fun _ => None) vs).
Proof.
  revert h. induction vs as [| v vs IH]; intros h Hvs; simpl.
  - rewrite app_nil_r. reflexivity.
  - inversion Hvs as [| ? ? Hv Hvs']; subst.
    destruct (Set_appends h v Hv) as [E _]. rewrite E.
    rewrite (IH _ Hvs'). rewrite <- app_assoc. reflexivity.
Qed.

(** C9.  A [Set] call whose input contains a colon succeeds and appends
    exactly one header at the end of the list: its key is the text before
    the first colon, unchanged, and its value is the text after it with
    the spaces at both ends removed, and nothing else.  Successive
    successful calls therefore leave the headers in call order,
    duplicates included.  An input without a colon returns
    [errInvalidHeaderFormat] and leaves the list as it was. *)
Theorem Set_appends_one_header (h : HeadersList) (v : string) (vs : list string) :
  (occurs colon v = true ->
   exists k rest,
     v = String.append k (String colon rest) /\
     occurs colon k = false /\
     Set_ h v = (h ++ [mkHeader k (Trim rest)], None) /\
     (exists a b,
        rest = String.append (spaces a) (String.append (Trim rest) (spaces b))) /\
     first_byte (Trim rest) <> Some space /\
     last_byte (Trim rest) <> Some space) /\
  (occurs colon v = false -> Set_ h v = (h, Some errInvalidHeaderFormat)) /\
  (Forall (fun v' => occurs colon v' = true) vs ->
   Set_all h vs
   = (h ++ concat (map (fun v' => fst (Set_ [] v')) vs),
      map (fun _ => None) vs) /\
   length (fst (Set_all h vs)) = (length h + length vs)%nat).
Proof.
  split; [| split].
  - intros Hv. destruct (occurs_split colon v Hv) as (k & rest & -> & Hk).
    exists k, rest. split; [reflexivity |]. split; [exact Hk |].
    split; [apply Set_with_colon; exact Hk |]. apply Trim_spec.
  - apply Set_without_colon.
  - intros Hvs. split; [apply Set_all_appends; exact Hvs |].
    rewrite (Set_all_appends vs h Hvs). simpl.
    rewrite length_app. f_equal.
    induction Hvs as [| v' vs' Hv' _ IH]; [reflexivity |].
    simpl. rewrite length_app, IH.
    destruct (Set_appends [] v' Hv') as [_ ->]. reflexivity.
Qed.

Lemma Set_appends_one_header_witness :
  Set_ [mkHeader "A" "1"] "Host:  web " = ([mkHeader "A" "1"; mkHeader "Host" "web"], None) /\
  Set_ [mkHeader "A" "1"] "no separator" = ([mkHeader "A" "1"], Some errInvalidHeaderFormat) /\
  fst (Set_all [] ["X: 1"; "Y:2"; "X: 1"])
  = [mkHeader "X" "1"; mkHeader "Y" "2"; mkHeader "X" "1"].
Proof.
  pose proof (Set_appends_one_header [mkHeader "A" "1"] "no separator"
                ["X: 1"; "Y:2"; "X: 1"]) as (_ & H & _).
  split; [reflexivity |]. split; [apply H; reflexivity | reflexivity].
Defined.

End HeaderListFacts.

(** ** The byte-counting connection *)

Module ByteCountFacts.

Import ByteCount.

(** C7, as written, fails: a read that reports 5 bytes together with an
    error leaves the total at 0, and so does such a write. *)
Lemma partial_transfer_not_credited :
  fst (Read (mkTotals 0 0) (5, Some (libraryError "connection reset")))
  = mkTotals 0 0 /\
  fst (Write_ (mkTotals 0 0) (5, Some (libraryError "broken pipe")))
  = mkTotals 0 0 /\
  bytesRead
    (fst (Read (mkTotals 0 0) (5, Some (libraryError "connection reset"))))
  <> 0 + 5 /\
  bytesWritten
    (fst (Write_ (mkTotals 0 0) (5, Some (libraryError "broken pipe"))))
  <> 0 + 5.
Proof. repeat split; simpl; lia. Qed.

(** C7 (amended).  When the underlying [Read] or [Write] returns an
    error, the shared totals are left as they were, whatever count came
    with the error; the count and the error are passed on.  Only a call
    without error adds its count, to the total of its own direction (the
    sum, when it fits 64 signed bits). *)
Theorem totals_credited_on_success_only
  (t : totals) (n : Z) (e : error) :
  Read t (n, Some e) = (t, (n, Some e)) /\
  Write_ t (n, Some e) = (t, (n, Some e)) /\
  Read t (n, None)
  = (mkTotals (atomic_AddInt64 (bytesRead t) n) (bytesWritten t), (n, None)) /\
  Write_ t (n, None)
  = (mkTotals (bytesRead t) (atomic_AddInt64 (bytesWritten t) n), (n, None)) /\
  (is_int64 (bytesRead t + n) ->
   bytesRead (fst (Read t (n, None))) = bytesRead t + n) /\
  (is_int64 (bytesWritten t + n) ->
   bytesWritten (fst (Write_ t (n, None))) = bytesWritten t + n).
Proof.
  repeat split; simpl; unfold atomic_AddInt64; intros H;
    apply wrapS64_small; exact H.
Qed.

Lemma totals_credited_on_success_only_witness :
  bytesRead (fst (Read (mkTotals 10 20) (5, None))) = 10 + 5 /\
  bytesWritten (fst (Write_ (mkTotals 10 20) (7, None))) = 20 + 7.
Proof.
  split.
  - apply (totals_credited_on_success_only (mkTotals 10 20) 5 errInvalidURL).
    unfold is_int64. rewrite two63_eq. simpl. lia.
  - apply (totals_credited_on_success_only (mkTotals 10 20) 7 errInvalidURL).
    unfold is_int64. rewrite two63_eq. simpl. lia.
Defined.

End ByteCountFacts.

(** ** Statistics of one request *)

Module StatisticsFacts.

Import Core.

Lemma hist_Increment_same (h : gmap Z nat) (k : Z) :
  hist_count (hist_Increment h k) k = S (hist_count h k).
Proof. unfold hist_count at 1, hist_Increment. rewrite lookup_insert_eq. reflexivity. Qed.

Lemma hist_Increment_other (h : gmap Z nat) (k k' : Z) :
  k' <> k -> hist_count (hist_Increment h k) k' = hist_count h k'.
Proof.
  intros Hne. unfold hist_count at 1, hist_Increment.
  rewrite lookup_insert_ne by congruence. reflexivity.
Qed.

Lemma eqb_bumped (x : Z) : (x =? atomic_AddUint64 x 1) = false.
Proof.
  apply Z.eqb_neq. intros E. symmetry in E. exact (wrap64_succ_ne x E).
Qed.

(** The error of a request does not reach the statistics written. *)
Lemma performSingleRequest_statistics
  (b : Bombardier) (code msTaken : Z) (err : option string) :
  latencies (performSingleRequest b (code, msTaken, err))
  = latencies (writeStatistics b code msTaken) /\
  counters (performSingleRequest b (code, msTaken, err))
  = counters (writeStatistics b code msTaken).
Proof.
  unfold performSingleRequest, writeStatistics.
  destruct err as [msg |]; [| split; reflexivity].
  match goal with |- context [add_one _ ?r] => destruct r end;
    split; reflexivity.
Qed.

Example rotation_counted :
  counters (fold_left performSingleRequest Sample.rotation Sample.fresh)
  = [1; 1; 1; 1; 1; 3].
Proof. reflexivity. Qed.

Example failed_request_has_latency :
  hist_count
    (latencies (fold_left performSingleRequest Sample.rotation Sample.fresh))
    2000000 = 1%nat.
Proof. vm_compute. reflexivity. Qed.

Example negative_code_is_other :
  counters (writeStatistics Sample.fresh (-150) 1) = [0; 0; 0; 0; 0; 1].
Proof. reflexivity. Qed.

(** C3.  [writeStatistics] adds one (modulo [2^64]) to the counter chosen
    by the truncating quotient [code / 100]: 1 to 5 choose [req1xx] to
    [req5xx], every other quotient (0, negatives, 6 and more) chooses
    [others]; each of the six counters not chosen keeps its value, so
    exactly one of them changes.  The latency histogram gets one more
    occurrence of the time taken and is unchanged at every other key, and
    [performSingleRequest] writes the same statistics whether or not the
    client returned an error. *)
Theorem writeStatistics_one_counter
  (b : Bombardier) (code msTaken : Z) (err : option string) :
  req1xx (writeStatistics b code msTaken)
  = (if Z.quot code 100 =? 1 then wrap64 (req1xx b + 1) else req1xx b) /\
  req2xx (writeStatistics b code msTaken)
  = (if Z.quot code 100 =? 2 then wrap64 (req2xx b + 1) else req2xx b) /\
  req3xx (writeStatistics b code msTaken)
  = (if Z.quot code 100 =? 3 then wrap64 (req3xx b + 1) else req3xx b) /\
  req4xx (writeStatistics b code msTaken)
  = (if Z.quot code 100 =? 4 then wrap64 (req4xx b + 1) else req4xx b) /\
  req5xx (writeStatistics b code msTaken)
  = (if Z.quot code 100 =? 5 then wrap64 (req5xx b + 1) else req5xx b) /\
  others (writeStatistics b code msTaken)
  = (if (Z.quot code 100 <? 1) || (5 <? Z.quot code 100)
     then wrap64 (others b + 1) else others b) /\
  differing (counters b) (counters (writeStatistics b code msTaken)) = 1%nat /\
  hist_count (latencies (writeStatistics b code msTaken)) msTaken
  = S (hist_count (latencies b) msTaken) /\
  (forall k, k <> msTaken ->
     hist_count (latencies (writeStatistics b code msTaken)) k
     = hist_count (latencies b) k) /\
  latencies (performSingleRequest b (code, msTaken, err))
  = hist_Increment (latencies b) msTaken /\
  counters (performSingleRequest b (code, msTaken, err))
  = counters (writeStatistics b code msTaken).
Proof.
  destruct (performSingleRequest_statistics b code msTaken err) as [Hl Hc].
  rewrite Hl, Hc.
  unfold writeStatistics, counters, differing.
  pose proof eqb_bumped as Hb. pose proof Z.eqb_refl as Hr.
  unfold atomic_AddUint64 in Hb.
  remember (Z.quot code 100) as q eqn:Hq. clear Hq.
  assert (Hq : q = 1 \/ q = 2 \/ q = 3 \/ q = 4 \/ q = 5 \/ (q < 1 \/ 5 < q))
    by lia.
  destruct Hq as [-> | [-> | [-> | [-> | [-> | Hq]]]]].
  1-5: unfold add_one, atomic_AddUint64; simpl; rewrite ?Hb, ?Hr;
    repeat split;
    try apply hist_Increment_same;
    intros k Hk; apply hist_Increment_other; exact Hk.
  assert (Hsel : match q with
                 | 1 => ref_req1xx | 2 => ref_req2xx | 3 => ref_req3xx
                 | 4 => ref_req4xx | 5 => ref_req5xx | _ => ref_others
                 end = ref_others).
  { destruct q as [| [[[| |] | [| |] |] | [[| |] | [| |] |] |] |];
      try reflexivity; lia. }
  rewrite Hsel.
  assert (H1 : (q =? 1) = false) by (apply Z.eqb_neq; lia).
  assert (H2 : (q =? 2) = false) by (apply Z.eqb_neq; lia).
  assert (H3 : (q =? 3) = false) by (apply Z.eqb_neq; lia).
  assert (H4 : (q =? 4) = false) by (apply Z.eqb_neq; lia).
  assert (H5 : (q =? 5) = false) by (apply Z.eqb_neq; lia).
  assert (H6 : ((q <? 1) || (5 <? q)) = true).
  { apply orb_true_iff. rewrite Z.ltb_lt, Z.ltb_lt. exact Hq. }
  rewrite H1, H2, H3, H4, H5, H6.
  unfold add_one, atomic_AddUint64; simpl; rewrite ?Hb, ?Hr.
  repeat split;
    try apply hist_Increment_same;
    intros k Hk; apply hist_Increment_other; exact Hk.
Qed.

End StatisticsFacts.

(** ** Validation of a configuration and the choice of the barrier *)

Module ValidationFacts.

Import Completion Validation Core.

Example sample_counted_ok :
  snd (Sample.check (Sample.config (Some 100) None None)) = None.
Proof. reflexivity. Qed.

Example sample_zero_requests :
  snd (Sample.check (Sample.config (Some 0) None None))
  = Some errInvalidNumberOfRequests.
Proof. reflexivity. Qed.

Example sample_short_duration :
  snd (Sample.check (Sample.config None (Some 99000000) None))
  = Some errInvalidTestDuration.
Proof. reflexivity. Qed.

Example sample_method_tables :
  allowedHTTPMethod Sample.httpMethods "POST" = true /\
  allowedHTTPMethod Sample.httpMethods "ABRACADABRA" = false /\
  canHaveBody Sample.cantHaveBody "GET" = false /\
  canHaveBody Sample.cantHaveBody "POST" = true.
Proof. repeat split. Qed.

Section WithEnvironment.

Variable urlx_Parse : string -> URL + error.
Variable httpMethods : list string.
Variable cantHaveBody : list string.
Variable defaultTestDuration : Z.
Variable now : Z.
Variable tls_LoadX509KeyPair : string -> string -> option error.
Variable ioutil_ReadFile : string -> string + error.
Variable knownFormat_template : string -> string.
Variable template_Parse : string -> option error.

Local Abbreviation checkArgs' :=
  (checkArgs urlx_Parse httpMethods cantHaveBody defaultTestDuration).
Local Abbreviation NewBombardier' :=
  (NewBombardier urlx_Parse httpMethods cantHaveBody defaultTestDuration now
     tls_LoadX509KeyPair ioutil_ReadFile knownFormat_template template_Parse).

Lemma checkOrSetDefaultTestType_Rate (c : Config) :
  Rate (checkOrSetDefaultTestType defaultTestDuration c) = Rate c.
Proof.
  unfold checkOrSetDefaultTestType.
  destruct (testTyp_eqb (testType c) none); reflexivity.
Qed.

Lemma checkURL_Rate (c c' : Config) (e : option error) :
  checkURL urlx_Parse c = (c', e) -> Rate c' = Rate c.
Proof.
  unfold checkURL. destruct (urlx_Parse (Url c)) as [url | err].
  - destruct (_ || _); intros [= <- _]; reflexivity.
  - intros [= <- _]. reflexivity.
Qed.

(** With a zero rate, [checkArgs] fails at its first or at its second
    check. *)
Lemma checkArgs_zero_rate (c : Config) :
  Rate c = Some 0 ->
  exists e,
    snd (checkArgs' c) = Some e /\
    (snd (checkURL urlx_Parse (checkOrSetDefaultTestType defaultTestDuration c))
     = None -> e = errZeroRate).
Proof.
  intros HR. unfold checkArgs, checks. simpl.
  destruct (checkURL urlx_Parse (checkOrSetDefaultTestType defaultTestDuration c))
    as [c1 [e |]] eqn:EU.
  - exists e. split; [reflexivity | discriminate].
  - pose proof (checkURL_Rate _ _ _ EU) as H1.
    rewrite checkOrSetDefaultTestType_Rate, HR in H1.
    unfold checkRate. rewrite H1. simpl.
    exists errZeroRate. split; reflexivity.
Qed.

(** C8.  A configuration whose rate is present and zero is refused:
    [checkArgs] returns an error, which is [errZeroRate] unless the URL
    check before it has already failed, and [NewBombardier] returns that
    same error, so no bombardier exists whose workers could start.  A
    rate of at least 1 passes the rate check. *)
Theorem zero_rate_rejected (c : Config) (r : Z) :
  (Rate c = Some 0 ->
   exists e,
     snd (checkArgs' c) = Some e /\
     NewBombardier' c = Err e /\
     (snd (checkURL urlx_Parse
             (checkOrSetDefaultTestType defaultTestDuration c)) = None ->
      e = errZeroRate)) /\
  (Rate c = Some r -> 1 <= r -> checkRate c = None).
Proof.
  split.
  - intros HR. destruct (checkArgs_zero_rate c HR) as (e & He & Hz).
    exists e. split; [exact He |]. split; [| exact Hz].
    unfold NewBombardier. destruct (checkArgs' c) as [c1 oe].
    simpl in He. rewrite He. reflexivity.
  - intros HR Hr. unfold checkRate. rewrite HR.
    destruct (Z.ltb_spec r 1); [lia | reflexivity].
Qed.

Lemma checkURL_keeps (c c' : Config) (e : option error) :
  checkURL urlx_Parse c = (c', e) ->
  NumReqs c' = NumReqs c /\ Duration c' = Duration c.
Proof.
  unfold checkURL. destruct (urlx_Parse (Url c)) as [url | err].
  - destruct (_ || _); intros [= <- _]; split; reflexivity.
  - intros [= <- _]. split; reflexivity.
Qed.

(** The checks never change what decides the test type. *)
Lemma checks_keep (c c' : Config) (e : option error) :
  run_checks (checks urlx_Parse httpMethods cantHaveBody) c = (c', e) ->
  NumReqs c' = NumReqs c /\ Duration c' = Duration c.
Proof.
  unfold checks. simpl.
  destruct (checkURL urlx_Parse c) as [c1 e1] eqn:EU.
  apply checkURL_keeps in EU.
  destruct e1; [intros [= <- _]; exact EU |].
  destruct (checkRate c1); [intros [= <- _]; exact EU |].
  destruct (checkRunParameters c1); [intros [= <- _]; exact EU |].
  destruct (checkTimeoutDuration c1); [intros [= <- _]; exact EU |].
  destruct (checkHTTPParameters httpMethods cantHaveBody c1);
    [intros [= <- _]; exact EU |].
  destruct (checkCertPaths c1); intros [= <- _]; exact EU.
Qed.

Lemma NewBombardier_Ok (c : Config) (b : Bombardier) :
  NewBombardier' c = Ok b ->
  exists c1,
    checkArgs' c = (c1, None) /\ Conf b = c1 /\
    makeBarrier now c1 = Some (Barrier b).
Proof.
  unfold NewBombardier.
  destruct (checkArgs' c) as [c1 [e |]]; [discriminate |].
  destruct (testTyp_eqb (testType c1) none); [discriminate |].
  destruct (makeBarrier now c1) as [barrier |] eqn:EB; [| discriminate].
  destruct (generateTLSConfig tls_LoadX509KeyPair c1); [discriminate |].
  match goal with |- context [if ?x then _ else _] => destruct x end.
  - destruct (ioutil_ReadFile (BodyFilePath c1)); [| discriminate].
    destruct (prepareTemplate _ _ _ c1); try discriminate.
    destruct (two63 <=? NumConns c1); [discriminate |].
    intros [= <-]. exists c1. repeat split. exact EB.
  - destruct (prepareTemplate _ _ _ c1); try discriminate.
    destruct (two63 <=? NumConns c1); [discriminate |].
    intros [= <-]. exists c1. repeat split. exact EB.
Qed.

(** On a configuration with a request count, no check reads the
    duration. *)
Lemma checks_ignore_Duration (c : Config) (n : Z) (d' : option Z) :
  NumReqs c = Some n ->
  run_checks (checks urlx_Parse httpMethods cantHaveBody) (set_Duration c d')
  = (set_Duration
       (fst (run_checks (checks urlx_Parse httpMethods cantHaveBody) c)) d',
     snd (run_checks (checks urlx_Parse httpMethods cantHaveBody) c)).
Proof.
  intros HN. unfold checks. simpl.
  unfold checkURL. simpl.
  destruct (urlx_Parse (Url c)) as [url | err]; [| reflexivity].
  destruct (_ || _); [reflexivity |].
  unfold checkRate, checkRunParameters, testType,
    checkTimeoutDuration, checkHTTPParameters, checkCertPaths. simpl.
  rewrite HN. simpl.
  destruct (Rate c) as [r |];
    [destruct (r <? 1); [reflexivity |] |];
    (destruct (NumConns c <? 1); [reflexivity |];
     destruct (n <? 1); [reflexivity |];
     destruct (Timeout c <? 0); [reflexivity |];
     destruct (negb (allowedHTTPMethod httpMethods (Method c)));
       [reflexivity |];
     match goal with |- context [if ?x then _ else _] => destruct x end;
       [reflexivity |];
     match goal with |- context [if ?x then _ else _] => destruct x end;
       [reflexivity |];
     match goal with |- context [if ?x then _ else _] => destruct x end;
       [reflexivity |];
     match goal with |- context [if ?x then _ else _] => destruct x end;
       reflexivity).
Qed.

(** C10.  A configuration with both a request count and a duration is a
    counted run: [testType] says so before and after [checkArgs],
    [NewBombardier] builds the counting barrier for that count, and its
    outcome is the same for any other duration, or none, in the place of
    the given one.  With neither set, [checkArgs] stores the default
    duration, the test type is timed from then on, and [NewBombardier]
    builds the timed barrier of that duration. *)
Theorem both_set_is_counted (c : Config) (n d : Z) (d' : option Z) :
  (NumReqs c = Some n -> Duration c = Some d ->
   testType c = counted /\
   testType (fst (checkArgs' c)) = counted /\
   (forall b, NewBombardier' c = Ok b ->
      Barrier b = Counting (newCountingCompletionBarrier n)) /\
   same_but_Duration d' (NewBombardier' c) (NewBombardier' (set_Duration c d'))) /\
  (NumReqs c = None -> Duration c = None ->
   testType c = none /\
   Duration (fst (checkArgs' c)) = Some defaultTestDuration /\
   testType (fst (checkArgs' c)) = timed /\
   (forall b, NewBombardier' c = Ok b ->
      Barrier b = Timed (mkTimed make_chan false now defaultTestDuration))).
Proof.
  split.
  - intros HN HD.
    assert (HT : testType c = counted) by (unfold testType; rewrite HN; reflexivity).
    assert (H0 : forall x, checkOrSetDefaultTestType defaultTestDuration
                             (set_Duration c x) = set_Duration c x).
    { intros x. unfold checkOrSetDefaultTestType, testType. simpl.
      rewrite HN. reflexivity. }
    assert (H0' : checkOrSetDefaultTestType defaultTestDuration c = c).
    { unfold checkOrSetDefaultTestType. rewrite HT. reflexivity. }
    assert (HK : NumReqs (fst (checkArgs' c)) = Some n).
    { unfold checkArgs. rewrite H0'.
      destruct (run_checks _ c) as [c1 e] eqn:E.
      apply checks_keep in E as [E _]. simpl. congruence. }
    split; [exact HT |]. split; [unfold testType; rewrite HK; reflexivity |].
    split.
    + intros b Hb. apply NewBombardier_Ok in Hb as (c1 & E & _ & HB).
      rewrite E in HK. simpl in HK.
      unfold makeBarrier, testType in HB. rewrite HK in HB. simpl in HB.
      congruence.
    + unfold NewBombardier, checkArgs. rewrite H0, H0'.
      rewrite (checks_ignore_Duration c n d' HN).
      unfold checkArgs in HK. rewrite H0' in HK.
      destruct (run_checks _ c) as [c1 [e |]]; simpl in *; [reflexivity |].
      unfold testType, makeBarrier, testType, generateTLSConfig,
        prepareTemplate. simpl. rewrite HK. simpl.
      destruct (if _ && _ then _ else None); [reflexivity |].
      destruct (if _ && _ then _ else None); [reflexivity |].
      destruct (Format c1) as [[name | path] |]; simpl; auto.
      * destruct (template_Parse _); [reflexivity |].
        destruct (two63 <=? NumConns c1); reflexivity.
      * destruct (ioutil_ReadFile path); [| reflexivity].
        destruct (template_Parse _); [reflexivity |].
        destruct (two63 <=? NumConns c1); reflexivity.
  - intros HN HD.
    assert (HT : testType c = none)
      by (unfold testType; rewrite HN, HD; reflexivity).
    assert (H0 : checkOrSetDefaultTestType defaultTestDuration c
                 = set_Duration c (Some defaultTestDuration)).
    { unfold checkOrSetDefaultTestType. rewrite HT. reflexivity. }
    assert (HK : NumReqs (fst (checkArgs' c)) = None /\
                 Duration (fst (checkArgs' c)) = Some defaultTestDuration).
    { unfold checkArgs. rewrite H0.
      destruct (run_checks _ _) as [c1 e] eqn:E.
      apply checks_keep in E as [E1 E2]. simpl in *. split; congruence. }
    destruct HK as [HK1 HK2].
    split; [exact HT |]. split; [exact HK2 |].
    split; [unfold testType; rewrite HK1, HK2; reflexivity |].
    intros b Hb. apply NewBombardier_Ok in Hb as (c1 & E & _ & HB).
    rewrite E in HK1, HK2. simpl in HK1, HK2.
    unfold makeBarrier, testType in HB. rewrite HK1, HK2 in HB. simpl in HB.
    unfold newTimedCompletionBarrier in HB.
    destruct (defaultTestDuration <? 0); simpl in HB; congruence.
Qed.

End WithEnvironment.

Lemma zero_rate_rejected_witness :
  Sample.make (Sample.config (Some 100) None (Some 0)) = Err errZeroRate /\
  checkRate (Sample.config (Some 100) None (Some 5000)) = None.
Proof.
  pose proof (zero_rate_rejected Sample.urlx_Parse Sample.httpMethods
                Sample.cantHaveBody Sample.defaultTestDuration 0
                Sample.no_key_pair Sample.no_file Sample.any_template
                Sample.parses) as H.
  split.
  - destruct (H (Sample.config (Some 100) None (Some 0)) 0) as [H0 _].
    destruct (H0 eq_refl) as (e & _ & E & Hz).
    rewrite (Hz eq_refl) in E. exact E.
  - destruct (H (Sample.config (Some 100) None (Some 5000)) 5000) as [_ H1].
    apply H1; [reflexivity | lia].
Defined.

Lemma both_set_is_counted_witness :
  (exists b,
     Sample.make (Sample.config (Some 100) (Some 5000000000) None) = Ok b /\
     Barrier b = Counting (newCountingCompletionBarrier 100)) /\
  (exists b,
     Sample.make (Sample.config None None None) = Ok b /\
     Barrier b = Timed (mkTimed make_chan false 0 Sample.defaultTestDuration)).
Proof.
  pose proof (both_set_is_counted Sample.urlx_Parse Sample.httpMethods
                Sample.cantHaveBody Sample.defaultTestDuration 0
                Sample.no_key_pair Sample.no_file Sample.any_template
                Sample.parses) as H.
  split.
  - destruct (H (Sample.config (Some 100) (Some 5000000000) None)
                100 5000000000 None) as [H1 _].
    destruct (H1 eq_refl eq_refl) as (_ & _ & HB & _).
    eexists. split; [reflexivity |]. apply HB. reflexivity.
  - destruct (H (Sample.config None None None) 0 0 None) as [_ H2].
    destruct (H2 eq_refl eq_refl) as (_ & _ & _ & HB).
    eexists. split; [reflexivity |]. apply HB. reflexivity.
Defined.

End ValidationFacts.

(** ** Counted runs of the worker pool *)

Module PoolFacts.

Import Completion Core.

Lemma tally_insert (f : position -> nat) (ws : list position) (i : nat)
  (p q : position) :
  ws !! i = Some p ->
  (tally f (<[i := q]> ws) + f p = tally f ws + f q)%nat.
Proof.
  revert i.
  induction ws as [| w ws IH]; intros [| i] H; simpl in *; try discriminate.
  - injection H as ->. clear IH. lia.
  - specialize (IH i H). lia.
Qed.

Lemma tally_le_length (f : position -> nat) (ws : list position) :
  (forall p, f p <= 1)%nat -> (tally f ws <= length ws)%nat.
Proof.
  intros Hf. induction ws as [| w ws IH]; simpl; [lia |].
  specialize (Hf w). lia.
Qed.

Lemma tally_replicate (f : position -> nat) (n : nat) (p : position) :
  tally f (replicate n p) = (n * f p)%nat.
Proof. induction n as [| n IH]; simpl; [reflexivity | lia]. Qed.

Lemma has_returned_le (p : position) : (has_returned p <= 1)%nat.
Proof. destruct p; simpl; lia. Qed.

(** A worker that has not returned leaves room among the returned. *)
Lemma returned_lt_length (ws : list position) (i : nat) (p : position) :
  ws !! i = Some p -> p <> Returned ->
  (tally has_returned ws < length ws)%nat.
Proof.
  intros Hi Hp.
  pose proof (tally_insert has_returned ws i p Returned Hi) as H.
  pose proof (tally_le_length has_returned (<[i := Returned]> ws)
                has_returned_le) as Hle.
  rewrite length_insert in Hle.
  assert (has_returned p = 0%nat) by (destruct p; simpl; congruence).
  simpl in H. lia.
Qed.

Lemma all_returned_tally (ws : list position) :
  Forall (fun p => p = Returned) ws ->
  tally has_returned ws = length ws /\ tally in_flight ws = 0%nat /\
  tally request_made ws = 0%nat.
Proof.
  induction 1 as [| w ws -> _ (A & B & C)]; simpl; [auto |].
  rewrite A, B, C. auto.
Qed.

(** The add of [tryGrabWork] while the counter has room. *)
Lemma tryGrabWork_add_room (c : countingCompletionBarrier) :
  0 <= reqsGrabbed c -> reqsGrabbed c + 1 < two64 ->
  tryGrabWork_add c
  = (reqsGrabbed c + 1 <=? numReqs c,
     mkCounting (numReqs c) (reqsGrabbed c + 1) (reqsDone c) (doneChan c)
       (closeOnce c)).
Proof.
  intros H0 H1. unfold tryGrabWork_add, atomic_AddUint64.
  rewrite wrap64_small by (unfold is_uint64; lia). reflexivity.
Qed.

(** The add of [jobDone] while the counter has room. *)
Lemma jobDone_add_room (c : countingCompletionBarrier) :
  0 <= reqsDone c -> reqsDone c + 1 < two64 ->
  jobDone_add c
  = (reqsDone c + 1,
     mkCounting (numReqs c) (reqsGrabbed c) (reqsDone c + 1) (doneChan c)
       (closeOnce c)).
Proof.
  intros H0 H1. unfold jobDone_add, atomic_AddUint64.
  rewrite wrap64_small by (unfold is_uint64; lia). reflexivity.
Qed.

Section CountedRun.

Variable k : Z.
Variable n : nat.
Hypothesis k_nonneg : 0 <= k.
Hypothesis counter_has_room : k + Z.of_nat n < two64.

Lemma counted_run_safe : safe k n (counted_run k n).
Proof.
  exists (newCountingCompletionBarrier k). simpl.
  rewrite length_replicate, !tally_replicate. simpl.
  repeat split; try reflexivity; try lia.
Qed.

(** Whatever happens next, it does not panic and the run stays safe. *)
Lemma safe_step (s : pool) (e : event) :
  safe k n s -> exists s', step s e = Some s' /\ safe k n s'.
Proof.
  intros (c & Hb & Hn & Hg & Hlen & HG0 & HG & Hmin & Hw & HD0 & Hiss).
  destruct s as [b ws g iss]. simpl in Hb, Hlen, HG, Hmin, Hw, Hiss. subst b.
  destruct e as [i paced | |]; simpl.
  3: { eexists. split; [reflexivity |]. exists c. simpl.
       repeat split; auto; apply Hg. }
  - destruct (ws !! i) as [p |] eqn:Hi.
    2: { eexists. split; [reflexivity |]. exists c. simpl.
         repeat split; auto; apply Hg. }
    pose proof (fun q => tally_insert has_returned ws i p q Hi) as TR.
    pose proof (fun q => tally_insert is_waiting ws i p q Hi) as TW.
    pose proof (fun q => tally_insert request_made ws i p q Hi) as TM.
    destruct p.
    + unfold done.
      destruct (chan_closed (doneChan c));
        (eexists; split; [reflexivity |]); exists c; unfold move; simpl;
        rewrite length_insert.
      * specialize (TR Returned). specialize (TW Returned).
        specialize (TM Returned). simpl in TR, TW, TM.
        repeat split; auto; try apply Hg; lia.
      * specialize (TR AtAddGrabbed). specialize (TW AtAddGrabbed).
        specialize (TM AtAddGrabbed). simpl in TR, TW, TM.
        repeat split; auto; try apply Hg; lia.
    + pose proof (returned_lt_length ws i _ Hi ltac:(discriminate)) as Hroom.
      rewrite (atomic_AddUint64_room (reqsGrabbed c) HG0) by lia.
      destruct (reqsGrabbed c + 1 <=? numReqs c) eqn:Hle.
      * apply Z.leb_le in Hle.
        eexists. split; [reflexivity |]. eexists. unfold granted, move. simpl.
        split; [reflexivity |]. simpl. rewrite length_insert.
        specialize (TR AtPace). specialize (TW AtPace).
        specialize (TM AtPace). simpl in TR, TW, TM.
        repeat split; auto; try apply Hg; lia.
      * apply Z.leb_gt in Hle.
        eexists. split; [reflexivity |]. eexists. unfold move. simpl.
        split; [reflexivity |]. simpl. rewrite length_insert.
        specialize (TR Returned). specialize (TW Returned).
        specialize (TM Returned). simpl in TR, TW, TM.
        repeat split; auto; try apply Hg; lia.
    + destruct paced; eexists; (split; [reflexivity |]); exists c;
        unfold move; simpl; rewrite length_insert.
      * specialize (TR AtPerformSingleRequest).
        specialize (TW AtPerformSingleRequest).
        specialize (TM AtPerformSingleRequest). simpl in TR, TW, TM.
        repeat split; auto; try apply Hg; lia.
      * specialize (TR Returned). specialize (TW Returned).
        specialize (TM Returned). simpl in TR, TW, TM.
        repeat split; auto; try apply Hg; lia.
    + eexists. split; [reflexivity |]. exists c. unfold requested, move.
      simpl. rewrite length_insert.
      specialize (TR AtAddDone). specialize (TW AtAddDone).
      specialize (TM AtAddDone). simpl in TR, TW, TM.
      repeat split; auto; try apply Hg; lia.
    + assert (Hd : reqsDone c + 1 <= k).
      { specialize (TM AtSelect). simpl in TM. lia. }
      rewrite (atomic_AddUint64_room (reqsDone c) HD0) by lia.
      destruct (reqsDone c + 1 =? numReqs c);
        (eexists; split; [reflexivity |]); eexists; unfold move; simpl;
        (split; [reflexivity |]); simpl; rewrite length_insert.
      * specialize (TR AtCloseOnce). specialize (TW AtCloseOnce).
        specialize (TM AtCloseOnce). simpl in TR, TW, TM.
        repeat split; auto; try apply Hg; lia.
      * specialize (TR AtSelect). specialize (TW AtSelect).
        specialize (TM AtSelect). simpl in TR, TW, TM.
        repeat split; auto; try apply Hg; lia.
    + destruct (CompletionFacts.closeOnce_Do_guarded c Hg)
        as (c' & E & HN & HGr & HD & _ & _ & _ & Hg').
      rewrite E.
      eexists. split; [reflexivity |]. exists c'. unfold move. simpl.
      rewrite length_insert.
      specialize (TR AtSelect). specialize (TW AtSelect).
      specialize (TM AtSelect). simpl in TR, TW, TM.
      rewrite HN, HGr, HD.
      repeat split; auto; try apply Hg'; lia.
    + eexists. split; [reflexivity |]. exists c. simpl.
      repeat split; auto; apply Hg.
  - destruct (CompletionFacts.closeOnce_Do_guarded c Hg)
      as (c' & E & HN & HGr & HD & _ & _ & _ & Hg').
    unfold Cancel. rewrite E. simpl.
    eexists. split; [reflexivity |]. exists c'. simpl. rewrite HN, HGr, HD.
    repeat split; auto; apply Hg'.
Qed.

Lemma safe_run (es : list event) (s : pool) :
  safe k n s -> exists s', run s es = Some s' /\ safe k n s'.
Proof.
  revert s. induction es as [| e es IH]; intros s Hs; simpl.
  - exists s. split; [reflexivity | exact Hs].
  - destruct (safe_step s e Hs) as (s1 & E & Hs1). rewrite E.
    apply IH. exact Hs1.
Qed.

Lemma counted_run_steady : steady k n (counted_run k n).
Proof.
  split; [apply counted_run_safe |].
  exists (newCountingCompletionBarrier k). simpl.
  rewrite !tally_replicate. simpl.
  repeat split; try reflexivity; try lia; try discriminate.
Qed.

(** A worker's next operation in an undisturbed run keeps the run
    steady, and it is at least one operation less to go unless the worker
    had already returned. *)
Lemma steady_step (s : pool) (i : nat) :
  steady k n s ->
  exists s',
    step s (Next i cont) = Some s' /\ steady k n s' /\
    (forall p, workers s !! i = Some p -> p <> Returned ->
       remaining k s' + 1 <= remaining k s).
Proof.
  intros [Hs (c & Hb & Hfl & Hcl & Hatc & Hret)].
  destruct (safe_step s (Next i cont) Hs) as (s' & E & Hs').
  exists s'. split; [exact E |].
  pose proof Hs
    as (c0 & Hb0 & Hn & Hg & Hlen & HG0 & HG & Hmin & Hw & HD0 & Hiss).
  rewrite Hb in Hb0. injection Hb0 as <-.
  destruct s as [b ws g iss].
  simpl in Hb, Hfl, Hiss, Hatc, Hret, Hlen, HG, Hmin, Hw. subst b.
  simpl in E. simpl.
  destruct (ws !! i) as [p |] eqn:Hi.
  2: { injection E as <-. split; [| intros p [=]].
       split; [exact Hs |]. exists c. simpl. repeat split; auto. }
  pose proof (fun q => tally_insert has_returned ws i p q Hi) as TR.
  pose proof (fun q => tally_insert in_flight ws i p q Hi) as TF.
  pose proof (fun q => tally_insert about_to_close ws i p q Hi) as TC.
  pose proof (fun q => tally_insert rank ws i p q Hi) as TK.
  unfold remaining.
  destruct p.
  - unfold done in E.
    destruct (Bool.bool_dec (chan_closed (doneChan c)) true) as [Hc | Hc].
    + rewrite Hc in E. pick_step E.
      specialize (TR Returned). specialize (TF Returned).
      specialize (TC Returned). specialize (TK Returned).
      simpl in TR, TF, TC, TK.
      split; [split; [exact Hs' |] |]; simpl.
      * exists c. simpl. settle Hcl Hatc Hret.
      * intros _ _ _. lia.
    + apply not_true_is_false in Hc. rewrite Hc in E. pick_step E.
      specialize (TR AtAddGrabbed). specialize (TF AtAddGrabbed).
      specialize (TC AtAddGrabbed). specialize (TK AtAddGrabbed).
      simpl in TR, TF, TC, TK.
      split; [split; [exact Hs' |] |]; simpl.
      * exists c. simpl. settle Hcl Hatc Hret.
      * intros _ _ _. lia.
  - pose proof (returned_lt_length ws i _ Hi ltac:(discriminate)) as Hroom.
    rewrite (atomic_AddUint64_room (reqsGrabbed c) HG0) in E by lia.
    destruct (reqsGrabbed c + 1 <=? numReqs c) eqn:Hle; pick_step E.
    + apply Z.leb_le in Hle.
      specialize (TR AtPace). specialize (TF AtPace).
      specialize (TC AtPace). specialize (TK AtPace).
      simpl in TR, TF, TC, TK.
      split; [split; [exact Hs' |] |]; simpl.
      * eexists. split; [reflexivity |]. simpl. settle Hcl Hatc Hret.
      * intros _ _ _. lia.
    + apply Z.leb_gt in Hle.
      specialize (TR Returned). specialize (TF Returned).
      specialize (TC Returned). specialize (TK Returned).
      simpl in TR, TF, TC, TK.
      split; [split; [exact Hs' |] |]; simpl.
      * eexists. split; [reflexivity |]. simpl. settle Hcl Hatc Hret.
      * intros _ _ _. lia.
  - pick_step E.
    specialize (TR AtPerformSingleRequest). specialize (TF AtPerformSingleRequest).
    specialize (TC AtPerformSingleRequest). specialize (TK AtPerformSingleRequest).
    simpl in TR, TF, TC, TK.
    split; [split; [exact Hs' |] |]; simpl.
    + exists c. simpl. settle Hcl Hatc Hret.
    + intros _ _ _. lia.
  - pick_step E.
    specialize (TR AtAddDone). specialize (TF AtAddDone).
    specialize (TC AtAddDone). specialize (TK AtAddDone).
    simpl in TR, TF, TC, TK.
    split; [split; [exact Hs' |] |]; simpl.
    + exists c. simpl. settle Hcl Hatc Hret.
    + intros _ _ _. lia.
  - assert (Hd : reqsDone c + 1 <= k).
    { specialize (TF AtSelect). simpl in TF. lia. }
    assert (Hopen : chan_closed (doneChan c) = false).
    { destruct (chan_closed (doneChan c)); [| reflexivity].
      specialize (Hcl eq_refl). lia. }
    rewrite (atomic_AddUint64_room (reqsDone c) HD0) in E by lia.
    destruct (Z.eqb_spec (reqsDone c + 1) (numReqs c)) as [Heq | Hne];
      pick_step E.
    + specialize (TR AtCloseOnce). specialize (TF AtCloseOnce).
      specialize (TC AtCloseOnce). specialize (TK AtCloseOnce).
      simpl in TR, TF, TC, TK.
      split; [split; [exact Hs' |] |]; simpl.
      * eexists. split; [reflexivity |]. simpl. settle Hcl Hatc Hret.
      * intros _ _ _. lia.
    + specialize (TR AtSelect). specialize (TF AtSelect).
      specialize (TC AtSelect). specialize (TK AtSelect).
      simpl in TR, TF, TC, TK.
      assert (Hnone : tally about_to_close ws = 0%nat).
      { destruct (tally about_to_close ws); [reflexivity |].
        specialize (Hatc ltac:(lia)). lia. }
      split; [split; [exact Hs' |] |]; simpl.
      * eexists. split; [reflexivity |]. simpl. settle Hcl Hatc Hret.
      * intros _ _ _. lia.
  - specialize (TR AtSelect). specialize (TF AtSelect).
    specialize (TC AtSelect). specialize (TK AtSelect).
    simpl in TR, TF, TC, TK.
    assert (HDk : reqsDone c = k) by (apply Hatc; lia).
    destruct (CompletionFacts.closeOnce_Do_guarded c Hg)
      as (c' & E' & HN & HGr & HD & Hcl' & _ & _ & Hg').
    rewrite E' in E. pick_step E.
    split; [split; [exact Hs' |] |]; simpl.
    + exists c'. simpl. rewrite HD, HGr, Hcl'.
      repeat split; auto; try lia; try (intros _; left; reflexivity).
    + intros _ _ _. lia.
  - pick_step E. split; [| intros p [= <-] Hp; congruence].
    split; [exact Hs |]. exists c. simpl. repeat split; auto.
Qed.

(** In a safe run the grab counter has room whenever a worker is about
    to add to it, so the grab is granted exactly when the counter was
    below the request count. *)
Lemma grab_in_safe_run (s : pool) (c : countingCompletionBarrier) (i : nat) :
  safe k n s -> barrier s = Counting c ->
  workers s !! i = Some AtAddGrabbed ->
  0 <= reqsGrabbed c < two64 - 1 /\
  (fst (tryGrabWork_add c) = true <-> reqsGrabbed c < numReqs c).
Proof.
  intros (c0 & Hb0 & Hn & _ & Hlen & HG0 & HG & Hmin & _) Hb Hi.
  rewrite Hb in Hb0. injection Hb0 as <-.
  pose proof (returned_lt_length _ i _ Hi ltac:(discriminate)) as Hroom.
  split; [lia |].
  rewrite (tryGrabWork_add_room c HG0) by lia. simpl.
  rewrite Z.leb_le. lia.
Qed.

(** In a safe run for at least one request, what [completed] reports
    lies in the unit interval. *)
Lemma completed_in_safe_run (s : pool) (c : countingCompletionBarrier) :
  1 <= k -> safe k n s -> barrier s = Counting c ->
  in_unit_interval (completed c).
Proof.
  intros H1 (c0 & Hb0 & Hn & _ & _ & _ & _ & Hmin & Hw & HD0 & Hiss) Hb.
  rewrite Hb in Hb0. injection Hb0 as <-.
  unfold completed. destruct (chan_closed (doneChan c)).
  - apply CompletionFacts.float64_one_is_one.
  - apply CompletionFacts.float64_div_unit; lia.
Qed.

Lemma steady_run (es : list event) (s : pool) :
  undisturbed es -> steady k n s ->
  exists s', run s es = Some s' /\ steady k n s'.
Proof.
  intros Hes. revert s.
  induction Hes as [| e es [i ->] _ IH]; intros s Hs; cbn [run].
  - exists s. split; [reflexivity | exact Hs].
  - destruct (steady_step s i Hs) as (s1 & E & Hs1 & _). rewrite E.
    apply IH. exact Hs1.
Qed.

Lemma remaining_nonneg (s : pool) : safe k n s -> 0 <= remaining k s.
Proof.
  intros (c & _ & _ & _ & _ & _ & _ & Hmin & _). unfold remaining. lia.
Qed.

(** Either every worker has returned or one can be scheduled. *)
Lemma returned_or_not (ws : list position) :
  Forall (fun p => p = Returned) ws \/
  exists i p, ws !! i = Some p /\ p <> Returned.
Proof.
  induction ws as [| w ws [IH | (i & p & Hi & Hp)]].
  - left. constructor.
  - destruct w; try (right; exists 0%nat; eexists; split;
                     [reflexivity | discriminate]).
    left. constructor; [reflexivity | exact IH].
  - right. exists (S i), p. split; assumption.
Qed.

(** An undisturbed run can always be brought to its end. *)
Lemma run_completes (m : nat) (s : pool) :
  steady k n s -> remaining k s <= Z.of_nat m ->
  exists es s', undisturbed es /\ run s es = Some s' /\
                steady k n s' /\ all_returned s'.
Proof.
  revert s. induction m as [| m IH]; intros s Hs Hm;
    (destruct (returned_or_not (workers s)) as [Hall | (i & p & Hi & Hp)];
     [exists [], s; repeat split; [constructor | apply Hs | apply Hs | exact Hall] |]);
    destruct (steady_step s i Hs) as (s1 & E & Hs1 & Hrem);
    specialize (Hrem p Hi Hp);
    pose proof (remaining_nonneg s1 (proj1 Hs1)) as H0.
  - lia.
  - destruct (IH s1 Hs1 ltac:(lia)) as (es & s' & Hes & Hrun & Hs' & Hall).
    exists (Next i cont :: es), s'. split; [| split; [| split]]; auto.
    + constructor; [exists i; reflexivity | exact Hes].
    + cbn [run]. rewrite E. exact Hrun.
Qed.

(** When the workers of an undisturbed run have all returned, each of
    the [k] requests has been grabbed and made. *)
Lemma steady_end (s : pool) :
  (1 <= n)%nat -> steady k n s -> all_returned s ->
  Z.of_nat (grabbed s) = k /\ Z.of_nat (issued s) = k.
Proof.
  intros Hn [(c0 & Hb0 & Hnum & _ & Hlen & HG0 & _ & Hmin & _ & _ & Hiss)
             (c & Hb & Hfl & Hcl & _ & Hret)] Hall.
  rewrite Hb in Hb0. injection Hb0 as <-.
  destruct (all_returned_tally _ Hall) as (A & B & C).
  rewrite B in Hfl. rewrite C in Hiss. rewrite A, Hlen in Hret.
  destruct (Hret Hn) as [Hc | Hc].
  - specialize (Hcl Hc). lia.
  - lia.
Qed.

End CountedRun.

Lemma run_app (es1 es2 : list event) (s : pool) :
  run s (es1 ++ es2)
  = match run s es1 with
    | Some s' => run s' es2
    | None => None
    end.
Proof.
  revert s. induction es1 as [| e es1 IH]; intros s; simpl; [reflexivity |].
  destruct (step s e); [apply IH | reflexivity].
Qed.

Lemma undisturbed_rounds (j i : nat) : undisturbed (rounds j i).
Proof.
  induction j as [| j IH]; simpl; [constructor |].
  apply Forall_app. split; [exact IH |].
  repeat constructor; exists i; reflexivity.
Qed.

(** One more round of worker 1 while the grab counter stays below the
    request count. *)
Lemma one_more_round (k : Z) (j : nat) :
  0 <= k < two64 -> Z.of_nat j + 2 <= k ->
  run (after_rounds k j) (round 1) = Some (after_rounds k (S j)).
Proof.
  intros Hk Hj. unfold after_rounds, round.
  cbn [replicate run step workers lookup list_lookup barrier b_done done
       doneChan chan_closed make_chan move granted requested insert
       list_insert grabbed issued].
  rewrite tryGrabWork_add_room;
    cbn [reqsGrabbed numReqs reqsDone doneChan closeOnce]; [| lia | lia].
  replace (1 + Z.of_nat j + 1 <=? k) with true
    by (symmetry; apply Z.leb_le; lia).
  cbn [replicate run step workers lookup list_lookup barrier b_done done
       doneChan chan_closed make_chan move granted requested insert
       list_insert grabbed issued].
  rewrite jobDone_add_room;
    cbn [reqsGrabbed numReqs reqsDone doneChan closeOnce]; [| lia | lia].
  replace (Z.of_nat j + 1 =? k) with false
    by (symmetry; apply Z.eqb_neq; lia).
  cbn [move workers insert list_insert grabbed issued].
  replace (Z.of_nat (S j)) with (Z.of_nat j + 1) by lia.
  replace (1 + (Z.of_nat j + 1)) with (1 + Z.of_nat j + 1) by lia.
  reflexivity.
Qed.

Lemma many_rounds (k : Z) (j : nat) :
  0 <= k < two64 -> Z.of_nat j + 1 <= k ->
  run (after_rounds k 0) (rounds j 1) = Some (after_rounds k j).
Proof.
  intros Hk. induction j as [| j IH]; intros Hj; [reflexivity |].
  cbn [rounds]. rewrite run_app, IH by lia.
  apply one_more_round; [exact Hk | lia].
Qed.

(** The grab that finds [2^64 - 1] in the counter, and the two requests
    that follow it. *)
Lemma overrun_end_run (k : Z) (j : nat) :
  0 <= k -> Z.of_nat j + 2 = two64 ->
  run (after_rounds k j) overrun_end
  = Some (mkPool (Counting (mkCounting k 0 (Z.of_nat j) make_chan false))
            [AtAddDone; AtAddDone] (S (S j)) (S (S j))).
Proof.
  intros Hk Hj. unfold after_rounds, overrun_end.
  cbn [run step workers lookup list_lookup barrier b_done done
       doneChan chan_closed make_chan move granted requested insert
       list_insert grabbed issued].
  unfold tryGrabWork_add, atomic_AddUint64.
  cbn [doneChan reqsGrabbed numReqs reqsDone closeOnce chan_closed make_chan].
  replace (1 + Z.of_nat j + 1) with two64 by lia.
  change (wrap64 two64) with 0.
  replace (0 <=? k) with true by (symmetry; apply Z.leb_le; exact Hk).
  reflexivity.
Qed.

(** The run of [overrun] for any number [j] of rounds that brings the
    grab counter to [2^64 - 1]. *)
Lemma overrun_run (j : nat) :
  Z.of_nat j = two64 - 2 ->
  run (counted_run largest_count 2)
    (Next 0 cont :: Next 0 cont :: rounds j 1 ++ overrun_end)
  = Some (mkPool
            (Counting (mkCounting largest_count 0 (Z.of_nat j) make_chan false))
            [AtAddDone; AtAddDone] (S (S j)) (S (S j))).
Proof.
  intros Hj.
  assert (Hk : 0 <= largest_count < two64)
    by (unfold largest_count; rewrite two64_eq; lia).
  change (run (counted_run largest_count 2)
            (Next 0 cont :: Next 0 cont :: rounds j 1 ++ overrun_end))
    with (run (after_rounds largest_count 0) (rounds j 1 ++ overrun_end)).
  rewrite run_app.
  rewrite many_rounds; [| exact Hk | unfold largest_count; lia].
  apply overrun_end_run; lia.
Qed.

Lemma rounds_before_wrap :
  Z.of_nat (Z.to_nat (largest_count - 1)) = two64 - 2.
Proof.
  rewrite Z2Nat.id.
  - unfold largest_count. ring.
  - unfold largest_count. rewrite two64_eq. discriminate.
Qed.

(** C1, as written, fails for the largest request count: with
    [2^64 - 1] requests and two workers the grab counter wraps, a grab is
    granted that is one too many, and one request more than the count is
    made. *)
Lemma counted_run_overruns :
  undisturbed overrun /\
  exists s,
    run (counted_run largest_count 2) overrun = Some s /\
    Z.of_nat (grabbed s) = largest_count + 1 /\
    Z.of_nat (issued s) = largest_count + 1 /\
    ~ Z.of_nat (grabbed s) <= largest_count.
Proof.
  split.
  - unfold overrun. do 2 (constructor; [exists 0%nat; reflexivity |]).
    apply Forall_app. split; [apply undisturbed_rounds |].
    unfold overrun_end. repeat constructor; eexists; reflexivity.
  - generalize rounds_before_wrap. unfold overrun.
    generalize (Z.to_nat (largest_count - 1)). intros j Hj.
    eexists. split; [apply (overrun_run j Hj) |].
    cbn [grabbed issued]. rewrite !Nat2Z.inj_succ, Hj.
    unfold largest_count. repeat split; lia.
Qed.

(** C1 (amended).  In a counted run for [k] requests with [n >= 1]
    workers, where [k + n] is below [2^64], every interleaving of the
    workers' atomic operations and of cancellations runs without a panic;
    at most [k] grabs are granted and every request made follows a
    granted grab of its own.  If the run is not cancelled and the limiter
    never says [brk], then once every worker has returned exactly [k]
    grabs were granted and exactly [k] requests made, and from whatever
    point such a run has reached it can be scheduled to that end. *)
Theorem counted_run_issues_exactly_K (k : Z) (n : nat) (es : list event) :
  0 <= k -> (1 <= n)%nat -> k + Z.of_nat n < two64 ->
  exists s,
    run (counted_run k n) es = Some s /\
    Z.of_nat (grabbed s) <= k /\
    (issued s <= grabbed s)%nat /\
    (undisturbed es ->
     (all_returned s ->
      Z.of_nat (grabbed s) = k /\ Z.of_nat (issued s) = k) /\
     (exists es' s',
        undisturbed es' /\ run s es' = Some s' /\ all_returned s' /\
        Z.of_nat (grabbed s') = k /\ Z.of_nat (issued s') = k)).
Proof.
  intros Hk Hn Hroom.
  destruct (safe_run k n Hroom es _ (counted_run_safe k n Hk))
    as (s & E & Hs).
  exists s. split; [exact E |].
  pose proof Hs as (c & _ & _ & _ & _ & _ & _ & Hmin & Hw & _).
  split; [lia |]. split; [lia |].
  intros Hes.
  destruct (steady_run k n Hroom es _ Hes (counted_run_steady k n Hk))
    as (s1 & E1 & Hst).
  rewrite E in E1. injection E1 as <-.
  split.
  - intros Hall. apply (steady_end k n s Hn Hst Hall).
  - destruct (run_completes k n Hroom (Z.to_nat (remaining k s)) s Hst)
      as (es' & s' & Hes' & Hrun & Hst' & Hall).
    { pose proof (remaining_nonneg k n s Hs). lia. }
    exists es', s'. repeat split; auto; apply (steady_end k n s' Hn Hst' Hall).
Qed.

Lemma counted_run_issues_exactly_K_witness :
  exists s,
    run (counted_run 2 2)
      [Next 0 cont; Next 1 cont; Next 1 cont; Next 0 cont; Next 0 cont;
       Next 1 cont; Next 1 cont; Next 0 cont; Next 0 cont; Next 1 cont;
       Next 1 cont; Next 0 cont; Next 1 cont; Next 0 cont]
    = Some s /\
    Z.of_nat (grabbed s) <= 2 /\ (issued s <= grabbed s)%nat /\
    all_returned s /\ issued s = 2%nat.
Proof.
  destruct (counted_run_issues_exactly_K 2 2
              [Next 0 cont; Next 1 cont; Next 1 cont; Next 0 cont; Next 0 cont;
               Next 1 cont; Next 1 cont; Next 0 cont; Next 0 cont; Next 1 cont;
               Next 1 cont; Next 0 cont; Next 1 cont; Next 0 cont])
    as (s & E & Hg & Hi & _).
  - lia.
  - lia.
  - rewrite two64_eq. simpl. lia.
  - exists s. repeat split; try assumption.
    + vm_compute in E. injection E as <-. repeat constructor.
    + vm_compute in E. injection E as <-. reflexivity.
Defined.

End PoolFacts.

(** ** The tables of methods *)

Module TableFacts.

Import Validation.

Lemma is_sorted_tail (x : string) (l : list string) :
  is_sorted (x :: l) = true -> is_sorted l = true.
Proof.
  destruct l as [| y l]; [reflexivity |].
  cbn [is_sorted]. intros H. apply andb_true_iff in H. apply H.
Qed.

Lemma leb_trans (x y z : string) :
  String.leb x y = true -> String.leb y z = true -> String.leb x z = true.
Proof.
  intros H1 H2.
  assert (T : String.le x z).
  { transitivity y; unfold String.le; [rewrite H1 | rewrite H2]; exact I. }
  unfold String.le in T. destruct (String.leb x z); [reflexivity | destruct T].
Qed.

Lemma leb_refl (x : string) : String.leb x x = true.
Proof. destruct (String.leb_total x x); assumption. Qed.

Lemma is_sorted_head (x : string) (l : list string) (j : nat) (y : string) :
  is_sorted (x :: l) = true -> l !! j = Some y -> String.leb x y = true.
Proof.
  revert x j. induction l as [| z l IH]; intros x j Hs Hj; [discriminate |].
  cbn [is_sorted] in Hs. apply andb_true_iff in Hs as [Hxz Hs].
  destruct j as [| j]; simpl in Hj.
  - injection Hj as <-. exact Hxz.
  - apply (leb_trans x z y Hxz). apply (IH z j Hs Hj).
Qed.

(** In a sorted table an entry is at most every later one. *)
Lemma is_sorted_lookup (l : list string) (i j : nat) (x y : string) :
  is_sorted l = true -> (i <= j)%nat ->
  l !! i = Some x -> l !! j = Some y -> String.leb x y = true.
Proof.
  revert i j. induction l as [| z l IH]; intros i j Hs Hij Hi Hj;
    [discriminate |].
  destruct i as [| i]; simpl in Hi.
  - injection Hi as <-. destruct j as [| j]; simpl in Hj.
    + injection Hj as <-. apply leb_refl.
    + apply (is_sorted_head z l j y Hs Hj).
  - destruct j as [| j]; [lia |]. simpl in Hj.
    apply (IH i j (is_sorted_tail _ _ Hs) ltac:(lia) Hi Hj).
Qed.

(** The bisection of [sort.Search] on a predicate that, below [n], once
    true stays true: it returns the least index at which the predicate
    holds, or [n]. *)
Lemma sort_Search_loop_least (n : nat) (f : nat -> bool) :
  (forall a b, (a <= b < n)%nat -> f a = true -> f b = true) ->
  forall fuel i j,
    (i <= j <= n)%nat -> (j - i <= fuel)%nat ->
    (forall a, (a < i)%nat -> f a = false) ->
    (forall b, (j <= b < n)%nat -> f b = true) ->
    (i <= sort_Search_loop fuel f i j <= j)%nat /\
    (forall a, (a < sort_Search_loop fuel f i j)%nat -> f a = false) /\
    (forall b, (sort_Search_loop fuel f i j <= b < n)%nat -> f b = true).
Proof.
  intros Hmono. induction fuel as [| fuel IH]; intros i j Hij Hfuel Hlo Hhi.
  - simpl. assert (i = j) by lia. subst j.
    split; [lia |]. split; assumption.
  - cbn [sort_Search_loop]. destruct (Nat.ltb_spec i j) as [Hlt | Hge].
    + assert (Hh : (i <= (i + j) / 2 < j)%nat).
      { split; [apply Nat.div_le_lower_bound; lia
               | apply Nat.Div0.div_lt_upper_bound; lia]. }
      destruct (f ((i + j) / 2)%nat) eqn:Hf.
      * destruct (IH i ((i + j) / 2)%nat) as (A & B & C); try lia; auto.
        { intros b Hb. apply (Hmono ((i + j) / 2)%nat b); [lia | exact Hf]. }
        split; [lia |]. split; assumption.
      * destruct (IH ((i + j) / 2 + 1)%nat j) as (A & B & C); try lia; auto.
        { intros a Ha. destruct (f a) eqn:Hfa; [| reflexivity].
          rewrite <- Hf. symmetry.
          apply (Hmono a ((i + j) / 2)%nat); [lia | exact Hfa]. }
        split; [lia |]. split; assumption.
    + assert (i = j) by lia. subst j.
      split; [lia |]. split; assumption.
Qed.

(** [sort.SearchStrings] on a sorted table: the index of the first entry
    that is at least [x]. *)
Lemma sort_SearchStrings_least (a : list string) (x : string) :
  is_sorted a = true ->
  (sort_SearchStrings a x <= length a)%nat /\
  (forall i y, (i < sort_SearchStrings a x)%nat -> a !! i = Some y ->
     String.leb x y = false) /\
  (forall i y, (sort_SearchStrings a x <= i)%nat -> a !! i = Some y ->
     String.leb x y = true).
Proof.
  intros Hs. unfold sort_SearchStrings, sort_Search.
  set (f := fun i => match a !! i with
                     | Some y => String.leb x y
                     | None => false
                     end).
  assert (Hmono : forall i j, (i <= j < length a)%nat ->
                         f i = true -> f j = true).
  { intros i j Hij. unfold f.
    destruct (a !! i) as [y |] eqn:Hi; [| discriminate].
    destruct (lookup_lt_is_Some_2 a j ltac:(lia)) as [z Hj]. rewrite Hj.
    intros Hxy. apply (leb_trans x y z Hxy).
    apply (is_sorted_lookup a i j y z Hs ltac:(lia) Hi Hj). }
  destruct (sort_Search_loop_least (length a) f Hmono (length a) 0%nat
              (length a)) as (A & B & C).
  - lia.
  - lia.
  - intros b Hb. lia.
  - intros b Hb. lia.
  - split; [lia |]. split.
    + intros i y Hi Hy. specialize (B i Hi). unfold f in B.
      rewrite Hy in B. exact B.
    + intros i y Hi Hy. apply lookup_lt_Some in Hy as Hlen.
      specialize (C i ltac:(lia)). unfold f in C. rewrite Hy in C. exact C.
Qed.

(** The bisection finds a string exactly when the table holds it. *)
Lemma found_iff_member (a : list string) (x : string) :
  is_sorted a = true ->
  ((sort_SearchStrings a x <? length a)%nat
   && match a !! sort_SearchStrings a x with
      | Some m => String.eqb m x
      | None => false
      end = true
   <-> x ∈ a).
Proof.
  intros Hs. destruct (sort_SearchStrings_least a x Hs) as (A & B & C).
  split.
  - intros H. apply andb_true_iff in H as [_ H].
    destruct (a !! sort_SearchStrings a x) as [m |] eqn:Hm; [| discriminate].
    apply String.eqb_eq in H as ->. apply list_elem_of_lookup. eauto.
  - intros Hx. apply list_elem_of_lookup in Hx as [j Hj].
    assert (Hrj : (sort_SearchStrings a x <= j)%nat).
    { destruct (Nat.le_gt_cases (sort_SearchStrings a x) j) as [H | H];
        [exact H |].
      specialize (B j x H Hj). rewrite leb_refl in B. discriminate. }
    apply lookup_lt_Some in Hj as Hlen.
    destruct (lookup_lt_is_Some_2 a (sort_SearchStrings a x) ltac:(lia))
      as [m Hm].
    rewrite Hm. apply andb_true_iff. split; [apply Nat.ltb_lt; lia |].
    apply String.eqb_eq. apply String.leb_antisym.
    + apply (is_sorted_lookup a _ j m x Hs Hrj Hm Hj).
    + apply (C (sort_SearchStrings a x) m (Nat.le_refl _) Hm).
Qed.

(** X1.  Over a table of methods sorted in byte order,
    [allowedHTTPMethod] answers true exactly for the methods the table
    holds, and [canHaveBody] answers false exactly for the methods its
    table holds. *)
Theorem method_tables_decide_membership
  (httpMethods cantHaveBody : list string) (method : string) :
  is_sorted httpMethods = true -> is_sorted cantHaveBody = true ->
  (allowedHTTPMethod httpMethods method = true <-> method ∈ httpMethods) /\
  (canHaveBody cantHaveBody method = false <-> method ∈ cantHaveBody).
Proof.
  intros H1 H2. split.
  - unfold allowedHTTPMethod. apply found_iff_member. exact H1.
  - unfold canHaveBody. rewrite negb_false_iff.
    apply found_iff_member. exact H2.
Qed.

Lemma method_tables_decide_membership_witness :
  (allowedHTTPMethod Core.Sample.httpMethods "PATCH" = true
   <-> "PATCH" ∈ Core.Sample.httpMethods) /\
  (canHaveBody Core.Sample.cantHaveBody "PATCH" = false
   <-> "PATCH" ∈ Core.Sample.cantHaveBody).
Proof.
  apply (method_tables_decide_membership Core.Sample.httpMethods
           Core.Sample.cantHaveBody "PATCH"); reflexivity.
Defined.

(** Whatever the table, a method is allowed only if the table holds it. *)
Lemma allowedHTTPMethod_member (httpMethods : list string) (method : string) :
  allowedHTTPMethod httpMethods method = true -> method ∈ httpMethods.
Proof.
  unfold allowedHTTPMethod. intros H. apply andb_true_iff in H as [_ H].
  destruct (httpMethods !! _) as [m |] eqn:Hm; [| discriminate].
  apply String.eqb_eq in H as ->. apply list_elem_of_lookup. eauto.
Qed.

End TableFacts.

(** ** What checkArgs accepts and what it changes *)

Module AcceptanceFacts.

Import Completion Validation Core.

Lemma checkRate_passes (c : Config) :
  checkRate c = None <-> (forall r, Rate c = Some r -> 1 <= r).
Proof.
  unfold checkRate. destruct (Rate c) as [r |].
  - destruct (Z.ltb_spec r 1); split; try discriminate; auto.
    + intros H0. specialize (H0 r eq_refl). lia.
    + intros _ r' [= <-]. lia.
  - split; [intros _ r [=] | reflexivity].
Qed.

Lemma checkRunParameters_passes (c : Config) :
  checkRunParameters c = None <->
  1 <= NumConns c /\
  (forall n, NumReqs c = Some n -> 1 <= n) /\
  (NumReqs c = None -> forall d, Duration c = Some d -> time_Second <= d).
Proof.
  unfold checkRunParameters, testType.
  destruct (Z.ltb_spec (NumConns c) 1) as [Hc | Hc].
  { split; [discriminate | intros (H & _); lia]. }
  destruct (NumReqs c) as [n |]; simpl.
  - destruct (Z.ltb_spec n 1) as [Hn | Hn].
    + split; [discriminate | intros (_ & H & _)].
      specialize (H n eq_refl). lia.
    + split; [| reflexivity]. intros _. split; [lia |]. split.
      * intros n' [= <-]. lia.
      * discriminate.
  - destruct (Duration c) as [d |]; simpl.
    + destruct (Z.ltb_spec d time_Second) as [Hd | Hd].
      * split; [discriminate | intros (_ & _ & H)].
        specialize (H eq_refl d eq_refl). lia.
      * split; [| reflexivity]. intros _. split; [lia |]. split.
        -- discriminate.
        -- intros _ d' [= <-]. lia.
    + split; [| reflexivity]. intros _. split; [lia |]. split; discriminate.
Qed.

Lemma checkTimeoutDuration_passes (c : Config) :
  checkTimeoutDuration c = None <-> 0 <= Timeout c.
Proof.
  unfold checkTimeoutDuration. destruct (Z.ltb_spec (Timeout c) 0);
    split; try discriminate; try reflexivity; lia.
Qed.

Lemma checkHTTPParameters_passes (hm cb : list string) (c : Config) :
  checkHTTPParameters hm cb c = None <->
  allowedHTTPMethod hm (Method c) = true /\
  (canHaveBody cb (Method c) = false ->
   Body c = EmptyString /\ BodyFilePath c = EmptyString) /\
  (Body c = EmptyString \/ BodyFilePath c = EmptyString).
Proof.
  unfold checkHTTPParameters.
  destruct (allowedHTTPMethod hm (Method c)); simpl.
  2: { split; [discriminate | intros (H & _); discriminate]. }
  destruct (canHaveBody cb (Method c)); simpl;
    destruct (String.eqb_spec (Body c) EmptyString) as [Hb | Hb];
    destruct (String.eqb_spec (BodyFilePath c) EmptyString) as [Hf | Hf];
    simpl; split; try discriminate; try reflexivity;
    try (intros _; split; [reflexivity |]; split;
         [discriminate || auto | auto]);
    try (intros (_ & H1 & H2); try destruct (H1 eq_refl); destruct H2;
         contradiction).
Qed.

Lemma checkCertPaths_passes (c : Config) :
  checkCertPaths c = None <->
  (CertPath c = EmptyString <-> KeyPath c = EmptyString).
Proof.
  unfold checkCertPaths.
  destruct (String.eqb_spec (CertPath c) EmptyString) as [Hc | Hc];
    destruct (String.eqb_spec (KeyPath c) EmptyString) as [Hk | Hk];
    simpl; split; try discriminate; try reflexivity; try tauto.
Qed.

Section WithEnvironment.

Variable urlx_Parse : string -> URL + error.
Variable httpMethods : list string.
Variable cantHaveBody : list string.
Variable defaultTestDuration : Z.

Lemma checkURL_passes (c c' : Config) :
  checkURL urlx_Parse c = (c', None) <->
  exists url,
    urlx_Parse (Url c) = inl url /\ Host url <> EmptyString /\
    (Scheme url = "http" \/ Scheme url = "https")%string /\
    c' = set_Url c (URL_String url).
Proof.
  unfold checkURL. destruct (urlx_Parse (Url c)) as [url | err].
  - destruct (String.eqb_spec (Host url) EmptyString) as [Hh | Hh];
      destruct (String.eqb_spec (Scheme url) "http") as [H1 | H1];
      destruct (String.eqb_spec (Scheme url) "https") as [H2 | H2];
      simpl; split;
      try discriminate;
      try (intros [= <-]; exists url; tauto);
      try (intros (u & [= <-] & Hu & Hs & ->); reflexivity);
      intros (u & [= <-] & Hu & Hs & _); tauto.
  - split; [discriminate | intros (u & [=] & _)].
Qed.

(** What a run of the checks returns without an error has passed each
    of them. *)
Lemma checks_pass (c c' : Config) :
  run_checks (checks urlx_Parse httpMethods cantHaveBody) c = (c', None) <->
  checkURL urlx_Parse c = (c', None) /\
  checkRate c' = None /\ checkRunParameters c' = None /\
  checkTimeoutDuration c' = None /\
  checkHTTPParameters httpMethods cantHaveBody c' = None /\
  checkCertPaths c' = None.
Proof.
  unfold checks. cbn [run_checks].
  destruct (checkURL urlx_Parse c) as [c1 [e |]].
  { split; [discriminate | intros ([=] & _)]. }
  destruct (checkRate c1) eqn:E1.
  { split; [discriminate | intros ([= <-] & H & _); congruence]. }
  destruct (checkRunParameters c1) eqn:E2.
  { split; [discriminate | intros ([= <-] & _ & H & _); congruence]. }
  destruct (checkTimeoutDuration c1) eqn:E3.
  { split; [discriminate | intros ([= <-] & _ & _ & H & _); congruence]. }
  destruct (checkHTTPParameters httpMethods cantHaveBody c1) eqn:E4.
  { split; [discriminate | intros ([= <-] & _ & _ & _ & H & _); congruence]. }
  destruct (checkCertPaths c1) eqn:E5.
  { split; [discriminate | intros ([= <-] & _ & _ & _ & _ & H); congruence]. }
  split.
  - intros [= <-]. repeat split; assumption.
  - intros ([= <-] & _). reflexivity.
Qed.

Lemma accepted_iff_acceptable (c : Config) :
  snd (checkArgs urlx_Parse httpMethods cantHaveBody defaultTestDuration c)
  = None
  <-> acceptable urlx_Parse httpMethods cantHaveBody defaultTestDuration c.
Proof.
  unfold checkArgs.
  set (c0 := checkOrSetDefaultTestType defaultTestDuration c).
  assert (Hrun :
    checkRunParameters c0 = None <->
    1 <= NumConns c /\
    (forall n, NumReqs c = Some n -> 1 <= n) /\
    (NumReqs c = None -> forall d, Duration c = Some d -> time_Second <= d) /\
    (NumReqs c = None -> Duration c = None ->
     time_Second <= defaultTestDuration)).
  { rewrite checkRunParameters_passes.
    unfold c0, checkOrSetDefaultTestType, testType.
    destruct (NumReqs c) as [n |] eqn:HN;
      destruct (Duration c) as [d |] eqn:HD; simpl; rewrite ?HN, ?HD.
    - split; intros (A & B & C); repeat split; auto; discriminate.
    - split; intros (A & B & C); repeat split; auto; discriminate.
    - split.
      + intros (A & B & C). repeat split; auto. discriminate.
      + intros (A & B & C & D). repeat split; auto.
    - split.
      + intros (A & B & C). repeat split; auto; try discriminate;
          try (intros _ _; apply (C eq_refl _ eq_refl)).
      + intros (A & B & C & D). repeat split; auto;
          try (intros _ d [= <-]; apply D; reflexivity). }
  destruct (run_checks (checks urlx_Parse httpMethods cantHaveBody) c0)
    as [c1 e] eqn:E.
  simpl. split.
  - intros ->. apply checks_pass in E as (EU & E1 & E2 & E3 & E4 & E5).
    apply checkURL_passes in EU as (url & HP & Hh & Hs & ->).
    assert (HU : Url c0 = Url c).
    { unfold c0, checkOrSetDefaultTestType.
      destruct (testTyp_eqb _ _); reflexivity. }
    rewrite HU in HP.
    pose proof (proj1 (checkRate_passes _) E1) as R1.
    pose proof (proj1 (checkTimeoutDuration_passes _) E3) as R3.
    pose proof (proj1 (checkHTTPParameters_passes _ _ _) E4) as R4.
    pose proof (proj1 (checkCertPaths_passes _) E5) as R5.
    assert (E2' : checkRunParameters c0 = None) by exact E2.
    pose proof (proj1 Hrun E2') as R2.
    clear E1 E2 E2' E3 E4 E5 Hrun.
    unfold c0, checkOrSetDefaultTestType in R1, R3, R4, R5.
    destruct (testTyp_eqb (testType c) none); simpl in R1, R3, R4, R5;
      (split; [exists url; auto |]); tauto.
  - intros ((url & HP & Hh & Hs) & HR & HC & HN & HD & HDef & HT & HM).
    assert (HU : Url c0 = Url c).
    { unfold c0, checkOrSetDefaultTestType.
      destruct (testTyp_eqb _ _); reflexivity. }
    assert (E' : run_checks (checks urlx_Parse httpMethods cantHaveBody) c0
                 = (set_Url c0 (URL_String url), None)).
    { apply checks_pass. split.
      - apply checkURL_passes. exists url. rewrite HU. auto.
      - split; [apply checkRate_passes |].
        { unfold c0, checkOrSetDefaultTestType.
          destruct (testTyp_eqb _ _); exact HR. }
        split; [change (checkRunParameters c0 = None); apply Hrun; tauto |].
        split; [apply checkTimeoutDuration_passes |].
        { unfold c0, checkOrSetDefaultTestType.
          destruct (testTyp_eqb _ _); exact HT. }
        split; [apply checkHTTPParameters_passes | apply checkCertPaths_passes];
          unfold c0, checkOrSetDefaultTestType;
          destruct (testTyp_eqb _ _); simpl; tauto. }
    rewrite E in E'. congruence.
Qed.


Lemma set_fields_eta (c : Config) :
  set_Url (set_Duration c (Duration c)) (Url c) = c.
Proof. destruct c. reflexivity. Qed.

(** The configuration the checks return is the one the URL check
    returned. *)
Lemma checks_return_checkURL (c c' : Config) (e : option error) :
  run_checks (checks urlx_Parse httpMethods cantHaveBody) c = (c', e) ->
  c' = fst (checkURL urlx_Parse c).
Proof.
  unfold checks. cbn [run_checks].
  destruct (checkURL urlx_Parse c) as [c1 [e1 |]]; [intros [= <- _]; auto |].
  destruct (checkRate c1); [intros [= <- _]; auto |].
  destruct (checkRunParameters c1); [intros [= <- _]; auto |].
  destruct (checkTimeoutDuration c1); [intros [= <- _]; auto |].
  destruct (checkHTTPParameters httpMethods cantHaveBody c1);
    [intros [= <- _]; auto |].
  destruct (checkCertPaths c1); intros [= <- _]; auto.
Qed.

Lemma checkArgs_shape (c : Config) :
  let c' := fst (checkArgs urlx_Parse httpMethods cantHaveBody
                   defaultTestDuration c) in
  c' = set_Url (set_Duration c (Duration c')) (Url c') /\
  Duration c'
  = match NumReqs c, Duration c with
    | None, None => Some defaultTestDuration
    | _, _ => Duration c
    end /\
  (Url c' = Url c \/
   exists url,
     urlx_Parse (Url c) = inl url /\ Host url <> EmptyString /\
     (Scheme url = "http" \/ Scheme url = "https")%string /\
     Url c' = URL_String url).
Proof.
  cbv zeta. unfold checkArgs.
  destruct (run_checks _ (checkOrSetDefaultTestType defaultTestDuration c))
    as [c1 e] eqn:E.
  apply checks_return_checkURL in E. simpl. subst c1.
  destruct (checkURL urlx_Parse (checkOrSetDefaultTestType defaultTestDuration c))
    as [c1 e1] eqn:EU. simpl.
  assert (HU : Url (checkOrSetDefaultTestType defaultTestDuration c) = Url c).
  { unfold checkOrSetDefaultTestType.
    destruct (testTyp_eqb _ _); reflexivity. }
  assert (H0 : checkOrSetDefaultTestType defaultTestDuration c
               = set_Duration c
                   match NumReqs c, Duration c with
                   | None, None => Some defaultTestDuration
                   | _, _ => Duration c
                   end).
  { unfold checkOrSetDefaultTestType, testType.
    destruct (NumReqs c), (Duration c) eqn:HD; simpl; try reflexivity;
      rewrite <- HD; destruct c; reflexivity. }
  destruct e1 as [err |].
  - assert (c1 = checkOrSetDefaultTestType defaultTestDuration c).
    { unfold checkURL in EU.
      destruct (urlx_Parse _); [destruct (_ || _) |]; congruence. }
    subst c1. clear EU HU. rewrite H0. simpl.
    split; [destruct c; reflexivity |].
    split; [reflexivity | left; reflexivity].
  - apply checkURL_passes in EU as (url & HP & Hh & Hs & ->).
    rewrite HU in HP. clear HU. rewrite H0. simpl.
    split; [destruct c; reflexivity |].
    split; [reflexivity |]. right. exists url. auto.
Qed.

(** X3.  [checkArgs] writes to two fields only, whether it then returns
    an error or not: [Duration], which receives the default when neither
    a count nor a duration was given and is kept otherwise, and [Url],
    which is replaced by the rendering of the parsed URL when that has a
    host and the scheme http or https, and is kept otherwise. *)
Theorem checkArgs_writes_Url_and_Duration (c : Config) :
  let c' := fst (checkArgs urlx_Parse httpMethods cantHaveBody
                   defaultTestDuration c) in
  c' = set_Url (set_Duration c (Duration c')) (Url c') /\
  Duration c'
  = match NumReqs c, Duration c with
    | None, None => Some defaultTestDuration
    | _, _ => Duration c
    end /\
  (Url c' = Url c \/
   exists url,
     urlx_Parse (Url c) = inl url /\ Host url <> EmptyString /\
     (Scheme url = "http" \/ Scheme url = "https")%string /\
     Url c' = URL_String url).
Proof. exact (checkArgs_shape c). Qed.

End WithEnvironment.

Section WithLibraries.

Variable urlx_Parse : string -> URL + error.
Variable httpMethods : list string.
Variable cantHaveBody : list string.
Variable defaultTestDuration : Z.
Variable now : Z.
Variable tls_LoadX509KeyPair : string -> string -> option error.
Variable ioutil_ReadFile : string -> string + error.
Variable knownFormat_template : string -> string.
Variable template_Parse : string -> option error.

Local Abbreviation checkArgs' :=
  (checkArgs urlx_Parse httpMethods cantHaveBody defaultTestDuration).
Local Abbreviation NewBombardier' :=
  (NewBombardier urlx_Parse httpMethods cantHaveBody defaultTestDuration now
     tls_LoadX509KeyPair ioutil_ReadFile knownFormat_template template_Parse).



End WithLibraries.


End AcceptanceFacts.

(** ** Histories of a barrier *)

Module HistoryFacts.

Import Completion.

(** A closed barrier whose once guards its channel stays as it is under
    every call, but for the done counter of a counted one. *)
Lemma closed_perform (b : completionBarrier) (e : call) :
  once_guards b -> chan_closed (b_done b) = true ->
  exists b',
    perform b e = Some b' /\ once_guards b' /\ b_done b' = b_done b /\
    match b, b' with
    | Counting c, Counting c' =>
        numReqs c' = numReqs c /\ reqsGrabbed c' = reqsGrabbed c
    | Timed t, Timed t' => t' = t
    | _, _ => False
    end.
Proof.
  intros Hg Hcl.
  assert (Ho : b_once b = true) by (destruct Hg as [<- _]; exact Hcl).
  destruct b as [c | t]; simpl in Hcl, Ho; unfold done, tDone in Hcl.
  - assert (Hdo : closeOnce_Do c = Some c)
      by (unfold closeOnce_Do; rewrite Ho; reflexivity).
    destruct e; simpl.
    + unfold Cancel. rewrite Hdo. exists (Counting c). simpl. auto.
    + unfold jobDone, jobDone_add.
      set (c1 := mkCounting _ _ _ _ _).
      assert (Hdo1 : closeOnce_Do c1 = Some c1)
        by (unfold closeOnce_Do; subst c1; simpl; rewrite Ho; reflexivity).
      exists (Counting c1).
      split; [destruct (_ =? _); [rewrite Hdo1 |]; reflexivity |].
      split; [exact Hg |]. simpl. auto.
    + unfold tryGrabWork. rewrite Hcl. exists (Counting c). simpl. auto.
    + exists (Counting c). auto.
    + exists (Counting c). auto.
  - assert (Hdo : tCloseOnce_Do t = Some t)
      by (unfold tCloseOnce_Do; rewrite Ho; reflexivity).
    destruct e; simpl.
    + unfold tCancel. rewrite Hdo. exists (Timed t). simpl. auto.
    + exists (Timed t). simpl. auto.
    + unfold tTryGrabWork. rewrite Hcl. exists (Timed t). simpl. auto.
    + exists (Timed t). auto.
    + unfold timerFired. rewrite Hdo. exists (Timed t). simpl. auto.
Qed.

Lemma closed_perform_all (es : list call) (b : completionBarrier) :
  once_guards b -> chan_closed (b_done b) = true ->
  exists b',
    perform_all b es = Some b' /\ once_guards b' /\ b_done b' = b_done b /\
    match b, b' with
    | Counting c, Counting c' =>
        numReqs c' = numReqs c /\ reqsGrabbed c' = reqsGrabbed c
    | Timed t, Timed t' => t' = t
    | _, _ => False
    end.
Proof.
  revert b. induction es as [| e es IH]; intros b Hg Hcl; simpl.
  - exists b. split; [reflexivity |]. split; [exact Hg |].
    split; [reflexivity |]. destruct b; auto.
  - destruct (closed_perform b e Hg Hcl) as (b1 & -> & Hg1 & Hd1 & Hs1).
    destruct (IH b1 Hg1) as (b' & E & Hg' & Hd' & Hs');
      [rewrite Hd1; exact Hcl |].
    exists b'. split; [exact E |]. split; [exact Hg' |].
    split; [congruence |].
    destruct b as [c | t], b1 as [c1 | t1], b' as [c' | t'];
      try contradiction; [| congruence].
    destruct Hs1, Hs'. split; congruence.
Qed.

(** X5.  [Cancel] is final.  On a barrier whose once guards its channel
    [Cancel] does not panic, and whatever is called afterwards, in any
    order and number, the done-channel stays the closed channel it has
    become (no further [close] is executed), [tryGrabWork] returns false
    and changes nothing, so the grab counter stays where it was, and
    [completed] returns 1.0. *)
Theorem Cancel_is_final (b : completionBarrier) (es : list call) :
  once_guards b ->
  exists b1 b2,
    b_Cancel b = Some b1 /\ perform_all b1 es = Some b2 /\
    chan_closed (b_done b2) = true /\ b_done b2 = b_done b1 /\
    b_tryGrabWork b2 = (false, b2) /\
    (forall since, b_completed since b2 = float64_one) /\
    match b, b2 with
    | Counting c, Counting c2 =>
        numReqs c2 = numReqs c /\ reqsGrabbed c2 = reqsGrabbed c
    | Timed t, Timed t2 => start t2 = start t /\ duration t2 = duration t
    | _, _ => False
    end.
Proof.
  intros Hg.
  assert (H1 : exists b1,
             b_Cancel b = Some b1 /\ once_guards b1 /\
             chan_closed (b_done b1) = true /\
             match b, b1 with
             | Counting c, Counting c1 =>
                 numReqs c1 = numReqs c /\ reqsGrabbed c1 = reqsGrabbed c
             | Timed t, Timed t1 =>
                 start t1 = start t /\ duration t1 = duration t
             | _, _ => False
             end).
  { destruct b as [c | t]; simpl.
    - destruct (CompletionFacts.closeOnce_Do_guarded c Hg)
        as (c1 & E & Hn & Hgr & _ & Hcl & _ & _ & Hg1).
      exists (Counting c1). unfold Cancel. rewrite E. simpl. auto.
    - destruct (CompletionFacts.tCloseOnce_Do_guarded t Hg)
        as (t1 & E & Hs & Hd & Hcl & _ & _ & Hg1).
      exists (Timed t1). unfold tCancel. rewrite E. simpl. auto. }
  destruct H1 as (b1 & E1 & Hg1 & Hcl1 & Hs1).
  destruct (closed_perform_all es b1 Hg1 Hcl1) as (b2 & E2 & Hg2 & Hd2 & Hs2).
  exists b1, b2.
  assert (Hcl2 : chan_closed (b_done b2) = true) by (rewrite Hd2; exact Hcl1).
  split; [exact E1 |]. split; [exact E2 |]. split; [exact Hcl2 |].
  split; [exact Hd2 |].
  destruct b as [c | t], b1 as [c1 | t1], b2 as [c2 | t2];
    try contradiction; simpl in Hcl2; unfold done, tDone in Hcl2; simpl.
  - unfold tryGrabWork, completed. rewrite Hcl2.
    destruct Hs1, Hs2. repeat split; congruence.
  - unfold tTryGrabWork, tCompleted. rewrite Hcl2. subst t2.
    repeat split; apply Hs1.
Qed.

Lemma Cancel_is_final_witness :
  exists b2,
    perform_all (Counting (mkCounting 3 1 0 (mkChan true 1) true))
      [CallTryGrabWork; CallJobDone; CallTimer; CallTryGrabWork] = Some b2 /\
    b_tryGrabWork b2 = (false, b2).
Proof.
  destruct (Cancel_is_final (Counting (mkCounting 3 1 0 make_chan false))
              [CallTryGrabWork; CallJobDone; CallTimer; CallTryGrabWork])
    as (b1 & b2 & E1 & E2 & _ & _ & Hgr & _).
  - split; reflexivity.
  - injection E1 as <-. exists b2. split; [exact E2 | exact Hgr].
Defined.

(** The counted barrier along a history: the done counter counts the
    [jobDone] calls, and the channel is closed by a [Cancel] or by the
    call that brings the counter to the total. *)
Lemma counting_history (es : list call) (c : countingCompletionBarrier) :
  once_guards (Counting c) ->
  0 <= reqsDone c -> reqsDone c + Z.of_nat (jobs_done es) < two64 ->
  exists c',
    perform_all (Counting c) es = Some (Counting c') /\
    numReqs c' = numReqs c /\
    reqsDone c' = reqsDone c + Z.of_nat (jobs_done es) /\
    (chan_closed (doneChan c') = true <->
     chan_closed (doneChan c) = true \/ CallCancel ∈ es \/
     reqsDone c < numReqs c <= reqsDone c + Z.of_nat (jobs_done es)).
Proof.
  revert c. induction es as [| e es IH]; intros c Hg H0 Hroom.
  - exists c. simpl. split; [reflexivity |]. split; [reflexivity |].
    split; [lia |]. split; [auto |].
    rewrite elem_of_nil. intuition lia.
  - assert (Hkeep : forall c1,
              once_guards (Counting c1) ->
              numReqs c1 = numReqs c -> reqsDone c1 = reqsDone c ->
              (chan_closed (doneChan c1) = true <->
               chan_closed (doneChan c) = true \/ CallCancel = e) ->
              jobs_done (e :: es) = jobs_done es ->
              perform (Counting c) e = Some (Counting c1) ->
              exists c',
                perform_all (Counting c) (e :: es) = Some (Counting c') /\
                numReqs c' = numReqs c /\
                reqsDone c' = reqsDone c + Z.of_nat (jobs_done (e :: es)) /\
                (chan_closed (doneChan c') = true <->
                 chan_closed (doneChan c) = true \/ CallCancel ∈ e :: es \/
                 reqsDone c < numReqs c
                 <= reqsDone c + Z.of_nat (jobs_done (e :: es)))).
    { intros c1 Hg1 Hn1 Hd1 Hc1 Hj E.
      destruct (IH c1 Hg1) as (c' & E' & Hn' & Hd' & Hc'); [lia | lia |].
      exists c'. cbn [perform_all]. rewrite E.
      split; [exact E' |]. split; [congruence |].
      rewrite Hj. split; [lia |].
      rewrite Hc', Hc1, Hn1, Hd1, elem_of_cons. tauto. }
    destruct e.
    + destruct (CompletionFacts.closeOnce_Do_guarded c Hg)
        as (c1 & E & Hn & _ & Hd & Hcl & _ & _ & Hg1).
      apply (Hkeep c1 Hg1 Hn Hd); [| reflexivity |].
      * rewrite Hcl. split; auto.
      * simpl. unfold Cancel. rewrite E. reflexivity.
    + destruct (CompletionFacts.jobDone_guarded c Hg)
        as (c1 & E & Hd & Hn & _ & Hcl & _ & _ & Hg1).
      assert (Hd1 : reqsDone c1 = reqsDone c + 1).
      { rewrite Hd. apply atomic_AddUint64_room; simpl in Hroom; lia. }
      rewrite <- Hd, Hd1 in Hcl.
      destruct (IH c1 Hg1) as (c' & E' & Hn' & Hd' & Hc');
        [lia | simpl in Hroom; lia |].
      exists c'. cbn [perform_all perform b_jobDone]. rewrite E. simpl.
      split; [exact E' |]. split; [congruence |].
      split; [lia |].
      rewrite Hc', Hcl, Hn, Hd1, elem_of_cons, orb_true_iff, Z.eqb_eq.
      assert (CallCancel <> CallJobDone) by discriminate.
      intuition lia.
    + pose proof (CompletionFacts.tryGrabWork_keeps_channel c)
        as (Hch & Ho & Hn & Hd).
      apply (Hkeep (snd (tryGrabWork c))); auto.
      * destruct Hg as [G1 G2]. split; simpl in *; unfold done in *;
          rewrite Hch, Ho; assumption.
      * rewrite Hch. split; [auto | intros [H | H]; [exact H | discriminate]].
      * simpl. destruct (tryGrabWork c). reflexivity.
    + apply (Hkeep c); auto.
      split; [auto | intros [H | H]; [exact H | discriminate]].
    + apply (Hkeep c); auto.
      split; [auto | intros [H | H]; [exact H | discriminate]].
Qed.

(** X6.  A new counted barrier for [k] requests, under any history of
    calls with fewer than [2^64] calls of [jobDone]: nothing panics, the
    done counter holds the number of [jobDone] calls made, and the
    done-channel is closed at the end exactly if [Cancel] was called or
    [k] is at least 1 and at least [k] calls of [jobDone] were made.  A
    barrier for 0 requests is closed by [Cancel] only. *)
Theorem counted_barrier_closes_at_total (k : Z) (es : list call) :
  Z.of_nat (jobs_done es) < two64 ->
  exists c',
    perform_all (Counting (newCountingCompletionBarrier k)) es
    = Some (Counting c') /\
    reqsDone c' = Z.of_nat (jobs_done es) /\
    (chan_closed (doneChan c') = true <->
     CallCancel ∈ es \/ 1 <= k <= Z.of_nat (jobs_done es)).
Proof.
  intros Hroom.
  destruct (counting_history es (newCountingCompletionBarrier k))
    as (c' & E & _ & Hd & Hc).
  - apply CompletionFacts.new_counting_guards.
  - simpl. lia.
  - simpl. lia.
  - exists c'. split; [exact E |]. simpl in Hd, Hc. split; [lia |].
    rewrite Hc. split.
    + intros [H | [H | H]]; [discriminate | auto | right; lia].
    + intros [H | H]; [auto | right; right; lia].
Qed.

Lemma counted_barrier_closes_at_total_witness :
  exists c',
    perform_all (Counting (newCountingCompletionBarrier 2))
      [CallTryGrabWork; CallJobDone; CallCompleted 0; CallJobDone] =
    Some (Counting c') /\
    chan_closed (doneChan c') = true.
Proof.
  destruct (counted_barrier_closes_at_total 2
              [CallTryGrabWork; CallJobDone; CallCompleted 0; CallJobDone])
    as (c' & E & _ & Hc).
  - rewrite two64_eq. simpl. lia.
  - exists c'. split; [exact E |]. apply Hc. right. simpl. lia.
Defined.

(** The timed barrier along a history. *)
Lemma timed_history (es : list call) (t : timedCompletionBarrier) :
  once_guards (Timed t) ->
  exists t',
    perform_all (Timed t) es = Some (Timed t') /\
    start t' = start t /\ duration t' = duration t /\
    (chan_closed (tDoneChan t') = true <->
     chan_closed (tDoneChan t) = true \/ CallCancel ∈ es \/ CallTimer ∈ es).
Proof.
  revert t. induction es as [| e es IH]; intros t Hg.
  - exists t. simpl. repeat split; auto.
    rewrite !elem_of_nil. tauto.
  - assert (Hsame :
      e <> CallCancel -> e <> CallTimer -> perform (Timed t) e = Some (Timed t) ->
      exists t',
        perform_all (Timed t) (e :: es) = Some (Timed t') /\
        start t' = start t /\ duration t' = duration t /\
        (chan_closed (tDoneChan t') = true <->
         chan_closed (tDoneChan t) = true \/ CallCancel ∈ e :: es \/
         CallTimer ∈ e :: es)).
    { intros N1 N2 E. destruct (IH t Hg) as (t' & E' & Hs & Hd & Hc).
      exists t'. cbn [perform_all]. rewrite E.
      split; [exact E' |]. split; [exact Hs |]. split; [exact Hd |].
      rewrite Hc, !elem_of_cons.
      assert (CallCancel <> e) by congruence.
      assert (CallTimer <> e) by congruence. tauto. }
    assert (Hclose :
      e = CallCancel \/ e = CallTimer ->
      perform (Timed t) e = Timed <$> tCloseOnce_Do t ->
      exists t',
        perform_all (Timed t) (e :: es) = Some (Timed t') /\
        start t' = start t /\ duration t' = duration t /\
        (chan_closed (tDoneChan t') = true <->
         chan_closed (tDoneChan t) = true \/ CallCancel ∈ e :: es \/
         CallTimer ∈ e :: es)).
    { intros He E.
      destruct (CompletionFacts.tCloseOnce_Do_guarded t Hg)
        as (t1 & E1 & Hs1 & Hd1 & Hcl & _ & _ & Hg1).
      destruct (IH t1 Hg1) as (t' & E' & Hs & Hd & Hc).
      exists t'. cbn [perform_all]. rewrite E, E1. simpl.
      split; [exact E' |]. split; [congruence |]. split; [congruence |].
      rewrite Hc, !elem_of_cons.
      split; [intros _ | auto].
      destruct He as [-> | ->]; auto. }
    destruct e.
    + apply Hclose; [auto | reflexivity].
    + apply Hsame; [discriminate | discriminate | reflexivity].
    + apply Hsame; [discriminate | discriminate |].
      simpl. unfold tTryGrabWork. destruct (chan_closed _); reflexivity.
    + apply Hsame; [discriminate | discriminate | reflexivity].
    + apply Hclose; [auto | reflexivity].
Qed.

(** X7.  A timed barrier as [newTimedCompletionBarrier] makes it, under
    any history of calls and timer expiries: nothing panics, and the
    done-channel is closed at the end exactly if the timer has fired or
    [Cancel] was called.  Calls of [tryGrabWork], [jobDone] and
    [completed], however many, never close it, and as long as it is open
    [tryGrabWork] returns true. *)
Theorem timed_barrier_closes_on_timer_or_Cancel
  (now d : Z) (t : timedCompletionBarrier) (es : list call) :
  newTimedCompletionBarrier now d = Some t ->
  exists t',
    perform_all (Timed t) es = Some (Timed t') /\
    (chan_closed (tDoneChan t') = true <-> CallCancel ∈ es \/ CallTimer ∈ es) /\
    (fst (tTryGrabWork t') = true <->
     ~ CallCancel ∈ es /\ ~ CallTimer ∈ es).
Proof.
  intros Hnew.
  pose proof (CompletionFacts.new_timed_guards now d t Hnew) as Hg.
  destruct (timed_history es t Hg) as (t' & E & _ & _ & Hc).
  assert (Hopen : chan_closed (tDoneChan t) = false).
  { unfold newTimedCompletionBarrier in Hnew.
    destruct (d <? 0); [discriminate |]. injection Hnew as <-. reflexivity. }
  rewrite Hopen in Hc.
  assert (Hc' : chan_closed (tDoneChan t') = true <->
                CallCancel ∈ es \/ CallTimer ∈ es).
  { rewrite Hc. split; [intros [H | H]; [discriminate | exact H] | auto]. }
  exists t'. split; [exact E |]. split; [exact Hc' |].
  unfold tTryGrabWork.
  destruct (chan_closed (tDoneChan t')) eqn:Hcl; simpl.
  - split; [discriminate |]. intros [N1 N2].
    destruct (proj1 Hc' eq_refl); contradiction.
  - split; [intros _ | reflexivity].
    split; intros H; [pose proof (proj2 Hc' (or_introl H))
                     | pose proof (proj2 Hc' (or_intror H))]; discriminate.
Qed.

Lemma timed_barrier_closes_on_timer_or_Cancel_witness :
  exists t',
    perform_all (Timed overdue)
      [CallTryGrabWork; CallJobDone; CallCompleted 2000000000] =
    Some (Timed t') /\
    fst (tTryGrabWork t') = true.
Proof.
  destruct (timed_barrier_closes_on_timer_or_Cancel 0 1000000000 overdue
              [CallTryGrabWork; CallJobDone; CallCompleted 2000000000])
    as (t' & E & _ & Hg).
  - reflexivity.
  - exists t'. split; [exact E |]. apply Hg.
    split; intros H; repeat (apply elem_of_cons in H as [H | H];
                             [discriminate |]); inversion H.
Defined.

End HistoryFacts.

(** ** Runs of the worker pool after the close, and timed runs *)

Module RunFacts.

Import Completion Core.

Lemma owes_request_le (p : position) : (owes_request p <= 1)%nat.
Proof. destruct p; simpl; lia. Qed.

(** With the done-channel closed, a step leaves it as it is, and a
    request is made only by a worker that owed one. *)
Lemma closed_step (s : pool) (e : event) :
  once_guards (barrier s) -> chan_closed (b_done (barrier s)) = true ->
  exists s',
    step s e = Some s' /\ once_guards (barrier s') /\
    b_done (barrier s') = b_done (barrier s) /\
    length (workers s') = length (workers s) /\
    (issued s <= issued s')%nat /\
    (issued s' + tally owes_request (workers s')
     <= issued s + tally owes_request (workers s))%nat.
Proof.
  intros Hg Hcl. destruct s as [b ws g iss]. simpl in Hg, Hcl.
  destruct e as [i paced | |].
  2: { destruct (HistoryFacts.closed_perform b CallCancel Hg Hcl)
         as (b' & E & Hg' & Hd' & _).
       simpl in E. simpl. rewrite E. eexists. split; [reflexivity |].
       simpl. split; [exact Hg' |]. repeat split; auto. }
  2: { destruct (HistoryFacts.closed_perform b CallTimer Hg Hcl)
         as (b' & E & Hg' & Hd' & _).
       cbn [step barrier]. rewrite E. eexists. split; [reflexivity |].
       simpl. split; [exact Hg' |]. repeat split; auto. }
  cbn [step workers barrier].
  destruct (ws !! i) as [p |] eqn:Hi.
  2: { eexists. split; [reflexivity |]. simpl.
       split; [exact Hg |]. repeat split; auto. }
  pose proof (fun q => PoolFacts.tally_insert owes_request ws i p q Hi) as TO.
  destruct p.
  - rewrite Hcl. eexists. split; [reflexivity |]. simpl.
    rewrite length_insert. specialize (TO Returned). simpl in TO.
    split; [exact Hg |]. repeat split; auto; lia.
  - destruct b as [c | t].
    + unfold tryGrabWork_add.
      destruct (_ <=? _); (eexists; split; [reflexivity |]); simpl;
        rewrite length_insert.
      * specialize (TO AtPace). simpl in TO.
        split; [exact Hg |]. repeat split; auto; lia.
      * specialize (TO Returned). simpl in TO.
        split; [exact Hg |]. repeat split; auto; lia.
    + eexists. split; [reflexivity |]. simpl.
      split; [exact Hg |]. repeat split; auto.
  - destruct paced; (eexists; split; [reflexivity |]); simpl;
      rewrite length_insert.
    + specialize (TO AtPerformSingleRequest). simpl in TO.
      split; [exact Hg |]. repeat split; auto; lia.
    + specialize (TO Returned). simpl in TO.
      split; [exact Hg |]. repeat split; auto; lia.
  - eexists. split; [reflexivity |]. simpl. rewrite length_insert.
    specialize (TO AtAddDone). simpl in TO.
    split; [exact Hg |]. repeat split; auto; lia.
  - destruct b as [c | t].
    + unfold jobDone_add.
      destruct (_ =? _); (eexists; split; [reflexivity |]); simpl;
        rewrite length_insert.
      * specialize (TO AtCloseOnce). simpl in TO.
        split; [exact Hg |]. repeat split; auto; lia.
      * specialize (TO AtSelect). simpl in TO.
        split; [exact Hg |]. repeat split; auto; lia.
    + eexists. split; [reflexivity |]. simpl. rewrite length_insert.
      specialize (TO AtSelect). simpl in TO.
      split; [exact Hg |]. repeat split; auto; lia.
  - destruct b as [c | t].
    + assert (Ho : closeOnce c = true)
        by (destruct Hg as [G _]; simpl in G, Hcl; congruence).
      unfold closeOnce_Do. rewrite Ho.
      eexists. split; [reflexivity |]. simpl. rewrite length_insert.
      specialize (TO AtSelect). simpl in TO.
      split; [exact Hg |]. repeat split; auto; lia.
    + eexists. split; [reflexivity |]. simpl.
      split; [exact Hg |]. repeat split; auto.
  - eexists. split; [reflexivity |]. simpl.
    split; [exact Hg |]. repeat split; auto.
Qed.

Lemma closed_run (es : list event) (s : pool) :
  once_guards (barrier s) -> chan_closed (b_done (barrier s)) = true ->
  exists s',
    run s es = Some s' /\ once_guards (barrier s') /\
    b_done (barrier s') = b_done (barrier s) /\
    length (workers s') = length (workers s) /\
    (issued s <= issued s')%nat /\
    (issued s' + tally owes_request (workers s')
     <= issued s + tally owes_request (workers s))%nat.
Proof.
  revert s. induction es as [| e es IH]; intros s Hg Hcl; cbn [run].
  - exists s. split; [reflexivity |]. split; [exact Hg |]. repeat split; auto.
  - destruct (closed_step s e Hg Hcl) as (s1 & -> & Hg1 & Hd1 & Hl1 & Hi1 & Ho1).
    destruct (IH s1 Hg1) as (s' & E & Hg' & Hd' & Hl' & Hi' & Ho');
      [rewrite Hd1; exact Hcl |].
    exists s'. split; [exact E |]. split; [exact Hg' |].
    split; [congruence |]. split; [congruence |]. split; lia.
Qed.

(** X8.  Once the done-channel is closed (by the last [jobDone], by
    [Cancel] or by the timer), whatever the workers are scheduled to do
    and whatever else happens, the run does not panic, the channel is not
    touched again, and the only requests still made are those of workers
    that had passed the [select] of [tryGrabWork] and not yet made their
    request: at most one more request per worker. *)
Theorem at_most_one_request_after_close (s : pool) (es : list event) :
  once_guards (barrier s) -> chan_closed (b_done (barrier s)) = true ->
  exists s',
    run s es = Some s' /\
    b_done (barrier s') = b_done (barrier s) /\
    (issued s <= issued s')%nat /\
    (issued s' <= issued s + tally owes_request (workers s))%nat /\
    (issued s' <= issued s + length (workers s))%nat.
Proof.
  intros Hg Hcl.
  destruct (closed_run es s Hg Hcl) as (s' & E & _ & Hd & _ & Hi & Ho).
  exists s'. split; [exact E |]. split; [exact Hd |]. split; [exact Hi |].
  pose proof (PoolFacts.tally_le_length owes_request (workers s)
                owes_request_le).
  split; lia.
Qed.

Lemma at_most_one_request_after_close_witness :
  exists s',
    run (mkPool (Timed (mkTimed (mkChan true 1) true 0 1000000000))
           [AtPace; AtSelect; AtAddDone] 7 6)
      [Next 0 cont; Next 1 cont; Next 0 cont; Next 2 cont; Next 0 cont;
       Next 2 cont; Deadline; Next 0 cont]
    = Some s' /\
    (issued s' <= 6 + 1)%nat.
Proof.
  destruct (at_most_one_request_after_close
              (mkPool (Timed (mkTimed (mkChan true 1) true 0 1000000000))
                 [AtPace; AtSelect; AtAddDone] 7 6)
              [Next 0 cont; Next 1 cont; Next 0 cont; Next 2 cont; Next 0 cont;
               Next 2 cont; Deadline; Next 0 cont])
    as (s' & E & _ & _ & H & _).
  - split; reflexivity.
  - reflexivity.
  - exists s'. split; [exact E | exact H].
Defined.

Lemma all_returned_none_closing (ws : list position) :
  Forall (fun p => p = Returned) ws -> tally about_to_close ws = 0%nat.
Proof. induction 1 as [| w ws -> _ IH]; simpl; [reflexivity | exact IH]. Qed.

Section Settling.

Variable k : Z.
Variable n : nat.
Hypothesis k_positive : 1 <= k.
Hypothesis counter_has_room : k + Z.of_nat n < two64.

Lemma counted_run_settling : settling k n (counted_run k n).
Proof.
  split; [apply PoolFacts.counted_run_safe; lia |].
  exists (newCountingCompletionBarrier k). simpl.
  rewrite !PoolFacts.tally_replicate. simpl.
  split; [reflexivity |]. split; [lia |]. split; intros; lia.
Qed.

(** Whatever happens next, short of a [brk] of the limiter, the run
    keeps settling. *)
Lemma settling_step (s : pool) (e : event) :
  (forall i, e <> Next i brk) -> settling k n s ->
  exists s', step s e = Some s' /\ settling k n s'.
Proof.
  intros Hne [Hs (c & Hb & Hfl & Hcls & Hret)].
  destruct (PoolFacts.safe_step k n counter_has_room s e Hs) as (s' & E & Hs').
  exists s'. split; [exact E |]. split; [exact Hs' |].
  pose proof Hs
    as (c0 & Hb0 & Hn & Hg & Hlen & HG0 & HG & Hmin & Hw & HD0 & Hiss).
  rewrite Hb in Hb0. injection Hb0 as <-.
  destruct s as [b ws g iss].
  simpl in Hb, Hfl, Hcls, Hret, Hlen, HG, Hmin, Hw, Hiss. subst b.
  destruct e as [i paced | |].
  2: { simpl in E.
       destruct (CompletionFacts.closeOnce_Do_guarded c Hg)
         as (c' & E' & HN & HGr & HD & Hcl' & _ & _ & Hg').
       unfold Cancel in E. rewrite E' in E. pick_step E.
       exists c'. simpl. rewrite HD, HGr. split; [reflexivity |].
       resettle Hcls Hret. }
  2: { pick_step E. exists c. simpl. split; [reflexivity |].
       resettle Hcls Hret. }
  destruct paced; [| exfalso; exact (Hne i eq_refl)].
  simpl in E.
  destruct (ws !! i) as [p |] eqn:Hi.
  2: { injection E as <-. exists c. simpl. split; [reflexivity |].
       resettle Hcls Hret. }
  pose proof (fun q => PoolFacts.tally_insert has_returned ws i p q Hi) as TR.
  pose proof (fun q => PoolFacts.tally_insert in_flight ws i p q Hi) as TF.
  pose proof (fun q => PoolFacts.tally_insert about_to_close ws i p q Hi) as TC.
  destruct p.
  - unfold done in E.
    destruct (Bool.bool_dec (chan_closed (doneChan c)) true) as [Hc | Hc].
    + rewrite Hc in E. pick_step E.
      specialize (TR Returned). specialize (TF Returned).
      specialize (TC Returned). simpl in TR, TF, TC.
      exists c. simpl. split; [reflexivity |]. resettle Hcls Hret.
    + apply not_true_is_false in Hc. rewrite Hc in E. pick_step E.
      specialize (TR AtAddGrabbed). specialize (TF AtAddGrabbed).
      specialize (TC AtAddGrabbed). simpl in TR, TF, TC.
      exists c. simpl. split; [reflexivity |]. resettle Hcls Hret.
  - pose proof (PoolFacts.returned_lt_length ws i _ Hi ltac:(discriminate))
      as Hroom.
    rewrite (atomic_AddUint64_room (reqsGrabbed c) HG0) in E by lia.
    destruct (reqsGrabbed c + 1 <=? numReqs c) eqn:Hle; pick_step E.
    + apply Z.leb_le in Hle.
      specialize (TR AtPace). specialize (TF AtPace).
      specialize (TC AtPace). simpl in TR, TF, TC.
      eexists. split; [reflexivity |]. simpl. resettle Hcls Hret.
    + apply Z.leb_gt in Hle.
      specialize (TR Returned). specialize (TF Returned).
      specialize (TC Returned). simpl in TR, TF, TC.
      eexists. split; [reflexivity |]. simpl. resettle Hcls Hret.
  - pick_step E.
    specialize (TR AtPerformSingleRequest).
    specialize (TF AtPerformSingleRequest).
    specialize (TC AtPerformSingleRequest). simpl in TR, TF, TC.
    exists c. simpl. split; [reflexivity |]. resettle Hcls Hret.
  - pick_step E.
    specialize (TR AtAddDone). specialize (TF AtAddDone).
    specialize (TC AtAddDone). simpl in TR, TF, TC.
    exists c. simpl. split; [reflexivity |]. resettle Hcls Hret.
  - assert (Hd : reqsDone c + 1 <= k).
    { specialize (TF AtSelect). simpl in TF. lia. }
    rewrite (atomic_AddUint64_room (reqsDone c) HD0) in E by lia.
    destruct (Z.eqb_spec (reqsDone c + 1) (numReqs c)) as [Heq | Hneq];
      pick_step E.
    + specialize (TR AtCloseOnce). specialize (TF AtCloseOnce).
      specialize (TC AtCloseOnce). simpl in TR, TF, TC.
      eexists. split; [reflexivity |]. simpl. resettle Hcls Hret.
    + specialize (TR AtSelect). specialize (TF AtSelect).
      specialize (TC AtSelect). simpl in TR, TF, TC.
      eexists. split; [reflexivity |]. simpl. resettle Hcls Hret.
  - specialize (TR AtSelect). specialize (TF AtSelect).
    specialize (TC AtSelect). simpl in TR, TF, TC.
    destruct (CompletionFacts.closeOnce_Do_guarded c Hg)
      as (c' & E' & HN & HGr & HD & Hcl' & _ & _ & Hg').
    rewrite E' in E. pick_step E.
    exists c'. simpl. rewrite HD, HGr. split; [reflexivity |].
    resettle Hcls Hret.
  - pick_step E. exists c. simpl. split; [reflexivity |].
    resettle Hcls Hret.
Qed.

Lemma settling_run (es : list event) (s : pool) :
  unbroken es -> settling k n s ->
  exists s', run s es = Some s' /\ settling k n s'.
Proof.
  intros Hes. revert s.
  induction Hes as [| e es He _ IH]; intros s Hs; cbn [run].
  - exists s. split; [reflexivity | exact Hs].
  - destruct (settling_step s e He Hs) as (s1 & -> & Hs1).
    apply IH. exact Hs1.
Qed.

(** When the workers of a settling run have all returned, the channel
    is closed and every granted grab has had its request. *)
Lemma settling_end (s : pool) :
  (1 <= n)%nat -> settling k n s -> all_returned s ->
  exists c,
    barrier s = Counting c /\ once_guards (Counting c) /\
    chan_closed (doneChan c) = true /\ issued s = grabbed s.
Proof.
  intros Hn [(c0 & Hb0 & Hnum & Hg & Hlen & HG0 & _ & Hmin & _ & _ & Hiss)
             (c & Hb & Hfl & Hcls & Hret)] Hall.
  rewrite Hb in Hb0. injection Hb0 as <-.
  destruct (PoolFacts.all_returned_tally _ Hall) as (A & B & C).
  pose proof (all_returned_none_closing _ Hall) as D.
  rewrite B in Hfl. rewrite C in Hiss. rewrite A, Hlen in Hret.
  rewrite D in Hcls.
  exists c. split; [exact Hb |]. split; [exact Hg |]. split; [| lia].
  destruct (Hret Hn) as [Hc | Hc]; [exact Hc |].
  destruct Hcls as [Hc' | Hc']; [lia | exact Hc' | lia].
Qed.

End Settling.

(** X9.  A counted run for [k >= 1] requests with [n >= 1] workers,
    [k + n] below [2^64], in which the limiter never says [brk]: under
    every interleaving of the workers' operations, cancellations
    included, nothing panics, and once every worker has returned the
    done-channel is closed, by exactly one [close], and every granted
    grab has had its request.  So [rateMeter] and [barUpdater], which
    wait for the channel, are released and [completed] reports 1.0. *)
Theorem counted_run_ends_closed (k : Z) (n : nat) (es : list event) :
  1 <= k -> (1 <= n)%nat -> k + Z.of_nat n < two64 -> unbroken es ->
  exists s c,
    run (counted_run k n) es = Some s /\ barrier s = Counting c /\
    (all_returned s ->
     chan_closed (doneChan c) = true /\
     chan_closes (doneChan c) = 1%nat /\
     completed c = float64_one /\
     issued s = grabbed s).
Proof.
  intros Hk Hn Hroom Hes.
  destruct (settling_run k n Hroom es _ Hes (counted_run_settling k n Hk))
    as (s & E & Hs).
  pose proof Hs as [_ (c & Hb & _)].
  exists s, c. split; [exact E |]. split; [exact Hb |].
  intros Hall.
  destruct (settling_end k n s Hn Hs Hall) as (c' & Hb' & Hg & Hcl & Hi).
  rewrite Hb in Hb'. injection Hb' as <-.
  split; [exact Hcl |].
  destruct Hg as [G1 G2]. simpl in G1, G2. unfold done in G1, G2.
  rewrite <- G1, Hcl in G2.
  split; [exact G2 |]. split; [| exact Hi].
  unfold completed. rewrite Hcl. reflexivity.
Qed.

Lemma counted_run_ends_closed_witness :
  exists s c,
    run (counted_run 1 2)
      [Next 0 cont; Next 1 cont; Next 0 cont; Interrupt; Next 1 cont;
       Next 0 cont; Next 0 cont; Next 0 cont; Next 0 cont; Next 0 cont;
       Next 1 cont]
    = Some s /\ barrier s = Counting c /\
    chan_closed (doneChan c) = true /\ issued s = 1%nat.
Proof.
  destruct (counted_run_ends_closed 1 2
              [Next 0 cont; Next 1 cont; Next 0 cont; Interrupt; Next 1 cont;
               Next 0 cont; Next 0 cont; Next 0 cont; Next 0 cont; Next 0 cont;
               Next 1 cont])
    as (s & c & E & Hb & H).
  - lia.
  - lia.
  - rewrite two64_eq. simpl. lia.
  - repeat constructor; discriminate.
  - exists s, c. split; [exact E |]. split; [exact Hb |].
    vm_compute in E. injection E as <-.
    destruct H as (Hc & _ & _ & _); [repeat constructor |].
    split; [exact Hc | reflexivity].
Defined.

Lemma waiting_or_returned (ws : list position) :
  (tally is_waiting ws + tally has_returned ws <= length ws)%nat.
Proof.
  induction ws as [| w ws IH]; simpl; [lia |]. destruct w; simpl; lia.
Qed.

Lemma none_returned (ws : list position) :
  tally has_returned ws = 0%nat -> Forall (fun p => p <> Returned) ws.
Proof.
  induction ws as [| w ws IH]; simpl; intros H; constructor.
  - intros ->. simpl in H. lia.
  - apply IH. lia.
Qed.

Lemma timed_run_safe (now d : Z) (n : nat) : timed_safe n (timed_run now d n).
Proof.
  eexists. split; [reflexivity |]. simpl.
  rewrite length_replicate, !PoolFacts.tally_replicate. simpl.
  split; [split; reflexivity |]. repeat split; lia.
Qed.

(** Whatever happens next in a timed run, it does not panic and the run
    stays safe. *)
Lemma timed_safe_step (n : nat) (s : pool) (e : event) :
  timed_safe n s -> exists s', step s e = Some s' /\ timed_safe n s'.
Proof.
  intros (t & Hb & Hg & Hlen & Hco & Hlo & Hhi).
  destruct s as [b ws g iss]. simpl in Hb, Hlen, Hco, Hlo, Hhi. subst b.
  assert (Hkeep : timed_safe n (mkPool (Timed t) ws g iss)).
  { exists t. simpl. split; [reflexivity |]. split; [exact Hg |]. auto. }
  destruct e as [i paced | |].
  2,3: destruct (CompletionFacts.tCloseOnce_Do_guarded t Hg)
         as (t' & E & _ & _ & _ & _ & _ & Hg');
       cbn [step barrier perform b_Cancel]; unfold tCancel, timerFired;
       rewrite E; simpl; eexists; (split; [reflexivity |]);
       exists t'; simpl; split; [reflexivity |]; split; [exact Hg' |]; auto.
  cbn [step workers barrier].
  destruct (ws !! i) as [p |] eqn:Hi; [| exists (mkPool (Timed t) ws g iss); auto].
  pose proof (fun q => PoolFacts.tally_insert has_returned ws i p q Hi) as TR.
  pose proof (fun q => PoolFacts.tally_insert is_waiting ws i p q Hi) as TW.
  pose proof (fun q => PoolFacts.tally_insert counted_only ws i p q Hi) as TC.
  destruct p;
    try (exists (mkPool (Timed t) ws g iss); split; [reflexivity | exact Hkeep]).
  - destruct (chan_closed (b_done (Timed t)));
      (eexists; split; [reflexivity |]); exists t; simpl;
      rewrite length_insert; (split; [reflexivity |]); (split; [exact Hg |]).
    + specialize (TR Returned). specialize (TW Returned).
      specialize (TC Returned). simpl in TR, TW, TC. repeat split; lia.
    + specialize (TR AtPace). specialize (TW AtPace).
      specialize (TC AtPace). simpl in TR, TW, TC. repeat split; lia.
  - destruct paced; (eexists; split; [reflexivity |]); exists t; simpl;
      rewrite length_insert; (split; [reflexivity |]); (split; [exact Hg |]).
    + specialize (TR AtPerformSingleRequest).
      specialize (TW AtPerformSingleRequest).
      specialize (TC AtPerformSingleRequest). simpl in TR, TW, TC.
      repeat split; lia.
    + specialize (TR Returned). specialize (TW Returned).
      specialize (TC Returned). simpl in TR, TW, TC. repeat split; lia.
  - eexists. split; [reflexivity |]. exists t. simpl.
    rewrite length_insert. split; [reflexivity |]. split; [exact Hg |].
    specialize (TR AtAddDone). specialize (TW AtAddDone).
    specialize (TC AtAddDone). simpl in TR, TW, TC. repeat split; lia.
  - eexists. split; [reflexivity |]. exists t. simpl.
    rewrite length_insert. split; [reflexivity |]. split; [exact Hg |].
    specialize (TR AtSelect). specialize (TW AtSelect).
    specialize (TC AtSelect). simpl in TR, TW, TC. repeat split; lia.
Qed.

Lemma timed_safe_run (n : nat) (es : list event) (s : pool) :
  timed_safe n s -> exists s', run s es = Some s' /\ timed_safe n s'.
Proof.
  revert s. induction es as [| e es IH]; intros s Hs; cbn [run].
  - exists s. split; [reflexivity | exact Hs].
  - destruct (timed_safe_step n s e Hs) as (s1 & -> & Hs1).
    apply IH. exact Hs1.
Qed.

(** A worker's next operation while the timed run is undisturbed: the
    channel stays open and nobody returns. *)
Lemma timed_open_step (n : nat) (s : pool) (i : nat) :
  timed_open n s ->
  exists s', step s (Next i cont) = Some s' /\ timed_open n s'.
Proof.
  intros [Hs (t & Hb & Hopen & Hret)].
  destruct (timed_safe_step n s (Next i cont) Hs) as (s' & E & Hs').
  exists s'. split; [exact E |]. split; [exact Hs' |].
  destruct s as [b ws g iss]. simpl in Hb, Hret. subst b.
  cbn [step workers barrier] in E.
  destruct (ws !! i) as [p |] eqn:Hi.
  2: { injection E as <-. exists t. simpl. auto. }
  pose proof (fun q => PoolFacts.tally_insert has_returned ws i p q Hi) as TR.
  destruct p; simpl in E; unfold tDone in E; rewrite ?Hopen in E;
    injection E as <-; exists t; simpl;
    (split; [reflexivity |]); (split; [exact Hopen |]); try exact Hret.
  - specialize (TR AtPace). simpl in TR. lia.
  - specialize (TR AtPerformSingleRequest). simpl in TR. lia.
  - specialize (TR AtAddDone). simpl in TR. lia.
  - specialize (TR AtSelect). simpl in TR. lia.
Qed.

Lemma timed_open_run (n : nat) (es : list event) (s : pool) :
  undisturbed es -> timed_open n s ->
  exists s', run s es = Some s' /\ timed_open n s'.
Proof.
  intros Hes. revert s.
  induction Hes as [| e es [i ->] _ IH]; intros s Hs; cbn [run].
  - exists s. split; [reflexivity | exact Hs].
  - destruct (timed_open_step n s i Hs) as (s1 & -> & Hs1).
    apply IH. exact Hs1.
Qed.

Lemma timed_rounds_succ (m : nat) :
  timed_rounds (S m)
  = Next 0 cont :: Next 0 cont :: Next 0 cont :: Next 0 cont
    :: timed_rounds m.
Proof.
  unfold timed_rounds.
  replace (4 * S m)%nat with (S (S (S (S (4 * m))))) by lia. reflexivity.
Qed.

(** Worker 0 of an open timed run makes [m] requests in [m] rounds. *)
Lemma timed_rounds_run (t : timedCompletionBarrier) (ws : list position)
  (m g iss : nat) :
  chan_closed (tDoneChan t) = false ->
  run (mkPool (Timed t) (AtSelect :: ws) g iss) (timed_rounds m)
  = Some (mkPool (Timed t) (AtSelect :: ws) (m + g) (m + iss)).
Proof.
  intros Hopen. revert g iss.
  induction m as [| m IH]; intros g iss; [reflexivity |].
  rewrite timed_rounds_succ.
  generalize (timed_rounds m) (IH (S g) (S iss)). intros rest IH'.
  simpl. unfold tDone. rewrite Hopen. simpl.
  unfold move, requested, granted. simpl.
  rewrite IH'. f_equal. f_equal; lia.
Qed.

(** X10.  A timed run of [n] workers (its barrier as
    [newTimedCompletionBarrier] makes it), under every interleaving of the
    workers' operations, of cancellations and of the expiry of the
    timer: nothing panics, every request follows a granted grab, and at
    most [n] granted grabs are without their request.  As long as the
    run is undisturbed (no cancellation, no expiry, no [brk]) the
    channel stays open and no worker returns, and nothing limits the
    number of requests: one worker scheduled for [m] rounds makes [m]. *)
Theorem timed_run_has_no_request_limit (now d : Z) (n : nat) (es : list event) :
  (0 <= d ->
   Timed <$> newTimedCompletionBarrier now d
   = Some (barrier (timed_run now d n))) /\
  exists s,
    run (timed_run now d n) es = Some s /\
    (issued s <= grabbed s <= issued s + n)%nat /\
    (undisturbed es ->
     chan_closed (b_done (barrier s)) = false /\
     Forall (fun p => p <> Returned) (workers s)) /\
    ((1 <= n)%nat ->
     forall m, exists s',
       undisturbed (timed_rounds m) /\
       run (timed_run now d n) (timed_rounds m) = Some s' /\
       issued s' = m).
Proof.
  split.
  { intros Hd. unfold newTimedCompletionBarrier.
    destruct (Z.ltb_spec d 0); [lia | reflexivity]. }
  destruct (timed_safe_run n es _ (timed_run_safe now d n)) as (s & E & Hs).
  exists s. split; [exact E |].
  pose proof Hs as (t & Hb & _ & Hlen & _ & Hlo & Hhi).
  pose proof (waiting_or_returned (workers s)) as Hwr.
  split; [lia |]. split.
  - intros Hes.
    destruct (timed_open_run n es (timed_run now d n) Hes)
      as (s1 & E1 & _ & t1 & Hb1 & Hopen & Hret).
    { split; [apply timed_run_safe |]. eexists. split; [reflexivity |].
      simpl. rewrite PoolFacts.tally_replicate. simpl. split; [reflexivity | lia]. }
    rewrite E in E1. injection E1 as <-.
    rewrite Hb1. split; [exact Hopen | apply none_returned; exact Hret].
  - intros Hn m. destruct n as [| n']; [lia |].
    eexists. split; [| split].
    + unfold timed_rounds. apply Forall_replicate. exists 0%nat. reflexivity.
    + unfold timed_run. cbn [replicate]. apply timed_rounds_run. reflexivity.
    + simpl. lia.
Qed.

Lemma timed_run_has_no_request_limit_witness :
  exists s',
    run (timed_run 0 1000000000 2) (timed_rounds 3) = Some s' /\
    issued s' = 3%nat.
Proof.
  destruct (timed_run_has_no_request_limit 0 1000000000 2 [])
    as (_ & s & _ & _ & _ & H).
  destruct (H ltac:(lia) 3%nat) as (s' & _ & E & Hi).
  exists s'. split; assumption.
Defined.

(** X15.  In a counted run for [k >= 1] requests with [n] workers,
    [k + n] below [2^64], under every interleaving of the workers'
    operations and of cancellations, [brk] of the limiter included, the
    done counter never passes [k], so what [completed] reports to the
    progress bar always lies between 0 and 1. *)
Theorem completed_stays_in_unit_interval (k : Z) (n : nat) (es : list event) :
  1 <= k -> k + Z.of_nat n < two64 ->
  exists s c,
    run (counted_run k n) es = Some s /\ barrier s = Counting c /\
    0 <= reqsDone c <= k /\
    in_unit_interval (completed c).
Proof.
  intros Hk Hroom.
  destruct (PoolFacts.safe_run k n Hroom es _
              (PoolFacts.counted_run_safe k n ltac:(lia)))
    as (s & E & Hs).
  pose proof Hs as (c & Hb & _ & _ & _ & _ & _ & Hmin & Hw & HD0 & Hiss).
  exists s, c. split; [exact E |]. split; [exact Hb |].
  split; [lia |].
  apply (PoolFacts.completed_in_safe_run k n s c Hk Hs Hb).
Qed.

Lemma completed_stays_in_unit_interval_witness :
  exists s c,
    run (counted_run 2 1)
      [Next 0 cont; Next 0 cont; Next 0 cont; Next 0 cont; Next 0 cont] =
    Some s /\
    barrier s = Counting c /\ in_unit_interval (completed c).
Proof.
  destruct (completed_stays_in_unit_interval 2 1
              [Next 0 cont; Next 0 cont; Next 0 cont; Next 0 cont; Next 0 cont])
    as (s & c & E & Hb & _ & H).
  - lia.
  - rewrite two64_eq. simpl. lia.
  - exists s, c. auto.
Defined.

End RunFacts.

(** ** Statistics and byte totals of many requests *)

Module TotalsFacts.

Import ByteCount Core.

Lemma wrap64_add_l (a b : Z) : wrap64 (wrap64 a + b) = wrap64 (a + b).
Proof.
  unfold wrap64. rewrite two64_eq. apply Zplus_mod_idemp_l.
Qed.

Lemma wrapS64_add_l (a b : Z) : wrapS64 (wrapS64 a + b) = wrapS64 (a + b).
Proof.
  unfold wrapS64. rewrite two64_eq, two63_eq. f_equal.
  replace ((a + 9223372036854775808) mod 18446744073709551616
           - 9223372036854775808 + b + 9223372036854775808)
    with ((a + 9223372036854775808) mod 18446744073709551616 + b) by lia.
  rewrite Zplus_mod_idemp_l. f_equal. lia.
Qed.

Lemma wrapS64_range (x : Z) : is_int64 (wrapS64 x).
Proof.
  unfold is_int64, wrapS64. rewrite two64_eq, two63_eq.
  pose proof (Z.mod_pos_bound (x + 9223372036854775808) 18446744073709551616
                ltac:(lia)).
  lia.
Qed.

(** The totals after one call, by direction and outcome. *)
Lemma account_one (t : totals) (c : transfer) :
  bytesRead (account t c)
  = match c with
    | ReadCall (n, None) => wrapS64 (bytesRead t + n)
    | _ => bytesRead t
    end /\
  bytesWritten (account t c)
  = match c with
    | WriteCall (n, None) => wrapS64 (bytesWritten t + n)
    | _ => bytesWritten t
    end.
Proof. destruct c as [[n [e |]] | [n [e |]]]; split; reflexivity. Qed.

Lemma account_all (cs : list transfer) (t : totals) :
  is_int64 (bytesRead t) -> is_int64 (bytesWritten t) ->
  bytesRead (fold_left account cs t)
  = wrapS64 (bytesRead t + read_without_error cs) /\
  bytesWritten (fold_left account cs t)
  = wrapS64 (bytesWritten t + written_without_error cs).
Proof.
  revert t. induction cs as [| c cs IH]; intros t Hr Hw.
  - simpl. rewrite !Z.add_0_r, !wrapS64_small by assumption. auto.
  - cbn [fold_left].
    destruct (account_one t c) as [Er Ew].
    destruct (IH (account t c)) as [IHr IHw].
    + rewrite Er. destruct c as [[n [e |]] | [n [e |]]];
        auto using wrapS64_range.
    + rewrite Ew. destruct c as [[n [e |]] | [n [e |]]];
        auto using wrapS64_range.
    + rewrite IHr, IHw, Er, Ew.
      destruct c as [[n [e |]] | [n [e |]]]; simpl;
        rewrite ?wrapS64_add_l, ?Z.add_assoc; auto.
Qed.

(** X11.  The byte totals shared by the connections of a run, after any
    sequence of [Read] and [Write] calls on any of them: each total is
    its start value plus the bytes of the calls of its direction that
    returned no error, modulo [2^64] in the signed range, and that sum
    itself when it fits.  So the order of the calls does not matter and
    no call changes the total of the other direction.  Every call hands
    back to its caller what the underlying connection returned. *)
Theorem totals_sum_the_successful_transfers
  (t : totals) (cs : list transfer) (under : Z * option error) :
  is_int64 (bytesRead t) -> is_int64 (bytesWritten t) ->
  bytesRead (fold_left account cs t)
  = wrapS64 (bytesRead t + read_without_error cs) /\
  bytesWritten (fold_left account cs t)
  = wrapS64 (bytesWritten t + written_without_error cs) /\
  (is_int64 (bytesRead t + read_without_error cs) ->
   bytesRead (fold_left account cs t) = bytesRead t + read_without_error cs) /\
  (is_int64 (bytesWritten t + written_without_error cs) ->
   bytesWritten (fold_left account cs t)
   = bytesWritten t + written_without_error cs) /\
  snd (Read t under) = under /\ snd (Write_ t under) = under.
Proof.
  intros Hr Hw. destruct (account_all cs t Hr Hw) as [Er Ew].
  rewrite Er, Ew.
  split; [reflexivity |]. split; [reflexivity |].
  split; [apply wrapS64_small |]. split; [apply wrapS64_small |].
  destruct under as [n [e |]]; split; reflexivity.
Qed.

Lemma totals_sum_the_successful_transfers_witness :
  bytesRead
    (fold_left account
       [ReadCall (120, None); WriteCall (40, None);
        ReadCall (7, Some (libraryError "connection reset"));
        ReadCall (30, None)] (mkTotals 0 0)) = 0 + 150.
Proof.
  apply (totals_sum_the_successful_transfers (mkTotals 0 0)
           [ReadCall (120, None); WriteCall (40, None);
            ReadCall (7, Some (libraryError "connection reset"));
            ReadCall (30, None)] (0, None)).
  - unfold is_int64. rewrite two63_eq. simpl. lia.
  - unfold is_int64. rewrite two63_eq. simpl. lia.
  - unfold is_int64. rewrite two63_eq. simpl. lia.
Defined.

(** What one request writes, field by field. *)
Lemma performSingleRequest_fields
  (b : Bombardier) (code msTaken : Z) (err : option string) :
  req1xx (performSingleRequest b (code, msTaken, err))
  = (if Z.quot code 100 =? 1 then wrap64 (req1xx b + 1) else req1xx b) /\
  req2xx (performSingleRequest b (code, msTaken, err))
  = (if Z.quot code 100 =? 2 then wrap64 (req2xx b + 1) else req2xx b) /\
  req3xx (performSingleRequest b (code, msTaken, err))
  = (if Z.quot code 100 =? 3 then wrap64 (req3xx b + 1) else req3xx b) /\
  req4xx (performSingleRequest b (code, msTaken, err))
  = (if Z.quot code 100 =? 4 then wrap64 (req4xx b + 1) else req4xx b) /\
  req5xx (performSingleRequest b (code, msTaken, err))
  = (if Z.quot code 100 =? 5 then wrap64 (req5xx b + 1) else req5xx b) /\
  others (performSingleRequest b (code, msTaken, err))
  = (if (Z.quot code 100 <? 1) || (5 <? Z.quot code 100)
     then wrap64 (others b + 1) else others b) /\
  latencies (performSingleRequest b (code, msTaken, err))
  = hist_Increment (latencies b) msTaken /\
  reqs (performSingleRequest b (code, msTaken, err)) = wrapS64 (reqs b + 1) /\
  errors (performSingleRequest b (code, msTaken, err))
  = match err with
    | Some msg => errors_add (errors b) msg
    | None => errors b
    end /\
  traffic (performSingleRequest b (code, msTaken, err)) = traffic b /\
  Conf (performSingleRequest b (code, msTaken, err)) = Conf b /\
  Barrier (performSingleRequest b (code, msTaken, err)) = Barrier b.
Proof.
  unfold performSingleRequest, writeStatistics.
  remember (Z.quot code 100) as q eqn:Hq. clear Hq.
  assert (Hq : q = 1 \/ q = 2 \/ q = 3 \/ q = 4 \/ q = 5 \/ (q < 1 \/ 5 < q))
    by lia.
  destruct Hq as [-> | [-> | [-> | [-> | [-> | Hq]]]]].
  1-5: destruct err; unfold add_one, atomic_AddUint64; simpl; repeat split.
  assert (Hsel : match q with
                 | 1 => ref_req1xx | 2 => ref_req2xx | 3 => ref_req3xx
                 | 4 => ref_req4xx | 5 => ref_req5xx | _ => ref_others
                 end = ref_others).
  { destruct q as [| [[[| |] | [| |] |] | [[| |] | [| |] |] |] |];
      try reflexivity; lia. }
  rewrite Hsel.
  assert (H1 : (q =? 1) = false) by (apply Z.eqb_neq; lia).
  assert (H2 : (q =? 2) = false) by (apply Z.eqb_neq; lia).
  assert (H3 : (q =? 3) = false) by (apply Z.eqb_neq; lia).
  assert (H4 : (q =? 4) = false) by (apply Z.eqb_neq; lia).
  assert (H5 : (q =? 5) = false) by (apply Z.eqb_neq; lia).
  assert (H6 : ((q <? 1) || (5 <? q)) = true).
  { apply orb_true_iff. rewrite Z.ltb_lt, Z.ltb_lt. exact Hq. }
  rewrite H1, H2, H3, H4, H5, H6.
  destruct err; unfold add_one, atomic_AddUint64; simpl; repeat split.
Qed.

Lemma bump (v : Z) (c : bool) (m : nat) :
  wrap64 ((if c then wrap64 (v + 1) else v) + Z.of_nat m)
  = wrap64 (v + Z.of_nat ((if c then 1 else 0) + m)).
Proof.
  destruct c; [rewrite wrap64_add_l |]; f_equal; lia.
Qed.

Lemma bumped_range (v : Z) (c : bool) :
  is_uint64 v -> is_uint64 (if c then wrap64 (v + 1) else v).
Proof. destruct c; [intros _; apply wrap64_range | auto]. Qed.

Lemma of_class_cons (q : Z -> bool) (r : Z * Z * option string)
  (rs : list (Z * Z * option string)) :
  of_class q (r :: rs)
  = ((if q (Z.quot (fst (fst r)) 100) then 1 else 0) + of_class q rs)%nat.
Proof. unfold of_class. simpl. destruct (q _); reflexivity. Qed.

Lemma with_latency_cons (ms : Z) (r : Z * Z * option string)
  (rs : list (Z * Z * option string)) :
  with_latency ms (r :: rs)
  = ((if (snd (fst r) =? ms)%Z then 1 else 0) + with_latency ms rs)%nat.
Proof. unfold with_latency. simpl. destruct (_ =? _); reflexivity. Qed.

Lemma with_error_cons (msg : string) (r : Z * Z * option string)
  (rs : list (Z * Z * option string)) :
  with_error msg (r :: rs)
  = ((match snd r with
      | Some m => if String.eqb m msg then 1 else 0
      | None => 0
      end) + with_error msg rs)%nat.
Proof.
  unfold with_error. simpl. destruct (snd r) as [m |]; [| reflexivity].
  destruct (String.eqb m msg); reflexivity.
Qed.

Lemma hist_Increment_count (h : gmap Z nat) (ms k : Z) :
  hist_count (hist_Increment h ms) k
  = ((if (ms =? k)%Z then 1 else 0) + hist_count h k)%nat.
Proof.
  destruct (Z.eqb_spec ms k) as [-> | Hne].
  - apply StatisticsFacts.hist_Increment_same.
  - apply StatisticsFacts.hist_Increment_other. congruence.
Qed.

Lemma errors_add_count (m : gmap string nat) (msg k : string) :
  errors_count (errors_add m msg) k
  = ((if String.eqb msg k then 1 else 0) + errors_count m k)%nat.
Proof.
  unfold errors_count, errors_add.
  destruct (String.eqb_spec msg k) as [-> | Hne].
  - rewrite lookup_insert_eq. reflexivity.
  - rewrite lookup_insert_ne by exact Hne. reflexivity.
Qed.

(** Every response falls into exactly one of the six classes. *)
Lemma classes_partition (rs : list (Z * Z * option string)) :
  (of_class (class_is 1) rs + of_class (class_is 2) rs
   + of_class (class_is 3) rs + of_class (class_is 4) rs
   + of_class (class_is 5) rs
   + of_class class_other rs)%nat
  = length rs.
Proof.
  induction rs as [| r rs IH]; [reflexivity |].
  rewrite !of_class_cons. cbn [length]. rewrite <- IH.
  generalize (Z.quot (fst (fst r)) 100). intros q.
  unfold class_is, class_other.
  destruct (Z.eqb_spec q 1), (Z.eqb_spec q 2), (Z.eqb_spec q 3),
    (Z.eqb_spec q 4), (Z.eqb_spec q 5), (Z.ltb_spec q 1), (Z.ltb_spec 5 q);
    simpl; lia.
Qed.

Lemma statistics_all (rs : list (Z * Z * option string)) (b : Bombardier) :
  Forall is_uint64 (counters b) -> is_int64 (reqs b) ->
  counters (fold_left performSingleRequest rs b)
  = [wrap64 (req1xx b + Z.of_nat (of_class (class_is 1) rs));
     wrap64 (req2xx b + Z.of_nat (of_class (class_is 2) rs));
     wrap64 (req3xx b + Z.of_nat (of_class (class_is 3) rs));
     wrap64 (req4xx b + Z.of_nat (of_class (class_is 4) rs));
     wrap64 (req5xx b + Z.of_nat (of_class (class_is 5) rs));
     wrap64 (others b
             + Z.of_nat (of_class class_other rs))] /\
  (forall ms,
     hist_count (latencies (fold_left performSingleRequest rs b)) ms
     = (hist_count (latencies b) ms + with_latency ms rs)%nat) /\
  (forall msg,
     errors_count (errors (fold_left performSingleRequest rs b)) msg
     = (errors_count (errors b) msg + with_error msg rs)%nat) /\
  reqs (fold_left performSingleRequest rs b)
  = wrapS64 (reqs b + Z.of_nat (length rs)) /\
  traffic (fold_left performSingleRequest rs b) = traffic b /\
  Conf (fold_left performSingleRequest rs b) = Conf b /\
  Barrier (fold_left performSingleRequest rs b) = Barrier b.
Proof.
  revert b. induction rs as [| [[code ms] err] rs IH]; intros b Hc Hr.
  - unfold counters in *. simpl.
    repeat match goal with
           | H : Forall _ (_ :: _) |- _ =>
               apply Forall_cons in H; destruct H
           end.
    rewrite !Z.add_0_r, !wrap64_small, wrapS64_small by assumption.
    unfold with_latency, with_error. simpl.
    repeat split; intros; lia.
  - cbn [fold_left].
    destruct (performSingleRequest_fields b code ms err)
      as (E1 & E2 & E3 & E4 & E5 & E6 & EL & ER & EE & ET & EC & EB).
    unfold counters in Hc.
    repeat match goal with
           | H : Forall _ (_ :: _) |- _ =>
               apply Forall_cons in H; destruct H
           end.
    destruct (IH (performSingleRequest b (code, ms, err)))
      as (Ic & Il & Ie & Ir & It & ICf & Ib).
    + unfold counters. rewrite E1, E2, E3, E4, E5, E6.
      repeat constructor; apply bumped_range; assumption.
    + rewrite ER. apply wrapS64_range.
    + rewrite Ic, E1, E2, E3, E4, E5, E6, !bump, !of_class_cons.
      unfold class_is, class_other. cbn [fst].
      split; [reflexivity |].
      split; [| split; [| split]].
      * intros k. rewrite Il, EL, hist_Increment_count, with_latency_cons.
        simpl. lia.
      * intros k. rewrite Ie, EE, with_error_cons. simpl.
        destruct err as [m |]; [rewrite errors_add_count |]; lia.
      * rewrite Ir, ER, wrapS64_add_l. f_equal. cbn [length]. lia.
      * rewrite It, ICf, Ib. auto.
Qed.

(** X12.  The statistics after any sequence of requests, from counters
    that hold [uint64] values: each status counter is its start value
    plus the number of responses of its class ([code / 100] from 1 to 5,
    anything else for [others]), modulo [2^64]; the classes partition the
    responses, so no response is counted twice or lost; the latency
    histogram holds, per latency, the responses that took it, those with
    an error included; the error map holds, per message, the responses
    that failed with it.  The order of the responses does not matter, and
    the barrier, the configuration and the byte totals are not touched. *)
Theorem statistics_count_the_responses
  (b : Bombardier) (rs : list (Z * Z * option string)) :
  Forall is_uint64 (counters b) -> is_int64 (reqs b) ->
  counters (fold_left performSingleRequest rs b)
  = [wrap64 (req1xx b + Z.of_nat (of_class (class_is 1) rs));
     wrap64 (req2xx b + Z.of_nat (of_class (class_is 2) rs));
     wrap64 (req3xx b + Z.of_nat (of_class (class_is 3) rs));
     wrap64 (req4xx b + Z.of_nat (of_class (class_is 4) rs));
     wrap64 (req5xx b + Z.of_nat (of_class (class_is 5) rs));
     wrap64 (others b
             + Z.of_nat (of_class class_other rs))] /\
  (of_class (class_is 1) rs + of_class (class_is 2) rs
   + of_class (class_is 3) rs + of_class (class_is 4) rs
   + of_class (class_is 5) rs
   + of_class class_other rs)%nat
  = length rs /\
  (forall ms,
     hist_count (latencies (fold_left performSingleRequest rs b)) ms
     = (hist_count (latencies b) ms + with_latency ms rs)%nat) /\
  (forall msg,
     errors_count (errors (fold_left performSingleRequest rs b)) msg
     = (errors_count (errors b) msg + with_error msg rs)%nat) /\
  reqs (fold_left performSingleRequest rs b)
  = wrapS64 (reqs b + Z.of_nat (length rs)) /\
  traffic (fold_left performSingleRequest rs b) = traffic b /\
  Conf (fold_left performSingleRequest rs b) = Conf b /\
  Barrier (fold_left performSingleRequest rs b) = Barrier b.
Proof.
  intros Hc Hr.
  destruct (statistics_all rs b Hc Hr) as (A & B & C & D).
  split; [exact A |]. split; [apply classes_partition |].
  split; [exact B |]. split; [exact C | exact D].
Qed.

Lemma statistics_count_the_responses_witness :
  counters (fold_left performSingleRequest Sample.rotation Sample.fresh)
  = [1; 1; 1; 1; 1; 3] /\
  errors_count
    (errors (fold_left performSingleRequest Sample.rotation Sample.fresh))
    "timeout" = 1%nat.
Proof.
  destruct (statistics_count_the_responses Sample.fresh Sample.rotation)
    as (A & _ & _ & C & _).
  - unfold counters. simpl.
    repeat (apply List.Forall_cons;
            [unfold is_uint64; rewrite two64_eq; lia |]).
    apply List.Forall_nil.
  - unfold is_int64. rewrite two63_eq. simpl. lia.
  - split; [rewrite A; reflexivity | rewrite C; reflexivity].
Defined.

End TotalsFacts.

(** ** Headers read back, and the timeout of an accepted configuration *)

Module ReadBackFacts.

Import HeaderList Validation Core.

Lemma TrimLeft_spaces (a : nat) (w : string) :
  TrimLeft (String.append (spaces a) w) = TrimLeft w.
Proof.
  induction a as [| a IH]; simpl.
  - rewrite ?HeaderListFacts.append_Empty. reflexivity.
  - rewrite ?HeaderListFacts.append_String. simpl. exact IH.
Qed.

Lemma TrimLeft_fixed (v : string) :
  first_byte v <> Some space -> TrimLeft v = v.
Proof.
  destruct v as [| c v]; simpl; [reflexivity |]. intros Hf.
  destruct (Ascii.eqb_spec c space) as [-> | _]; [congruence | reflexivity].
Qed.

Lemma TrimRight_spaces (b : nat) : TrimRight (spaces b) = EmptyString.
Proof. induction b as [| b IH]; simpl; [reflexivity |]. rewrite IH. reflexivity. Qed.

Lemma TrimRight_padded (v : string) (b : nat) :
  last_byte v <> Some space ->
  TrimRight (String.append v (spaces b)) = v.
Proof.
  induction v as [| c v IH]; intros Hl.
  - rewrite ?HeaderListFacts.append_Empty. apply TrimRight_spaces.
  - rewrite ?HeaderListFacts.append_String. cbn [TrimRight].
    destruct v as [| d v].
    + rewrite ?HeaderListFacts.append_Empty, TrimRight_spaces.
      simpl in Hl.
      destruct (Ascii.eqb_spec c space) as [-> | _]; [congruence | reflexivity].
    + rewrite IH by exact Hl. reflexivity.
Qed.

Lemma Trim_padded (v : string) (a b : nat) :
  first_byte v <> Some space -> last_byte v <> Some space ->
  Trim (String.append (spaces a) (String.append v (spaces b))) = v.
Proof.
  intros Hf Hl. unfold Trim. rewrite TrimLeft_spaces.
  destruct v as [| c v].
  - rewrite ?HeaderListFacts.append_Empty.
    destruct (HeaderListFacts.TrimLeft_spec (spaces b)) as [[a' Ha'] _].
    assert (E : TrimLeft (spaces b) = EmptyString).
    { clear. induction b as [| b IH]; simpl; [reflexivity | exact IH]. }
    rewrite E. reflexivity.
  - rewrite TrimLeft_fixed.
    + apply TrimRight_padded. exact Hl.
    + rewrite ?HeaderListFacts.append_String. exact Hf.
Qed.

(** X13.  A header is read back from its text: for a key without a
    colon and a value that neither starts nor ends with a space (it may
    contain colons and inner spaces), [Set] on the key, a colon and the
    value, the value padded with any number of spaces on either side,
    appends exactly the header of that key and that value. *)
Theorem Set_reads_back (h : HeadersList) (k v : string) (a b : nat) :
  occurs colon k = false ->
  first_byte v <> Some space -> last_byte v <> Some space ->
  Set_ h (String.append k
            (String colon
               (String.append (spaces a) (String.append v (spaces b)))))
  = (h ++ [mkHeader k v], None).
Proof.
  intros Hk Hf Hl.
  rewrite HeaderListFacts.Set_with_colon by exact Hk.
  rewrite Trim_padded by assumption. reflexivity.
Qed.

Lemma Set_reads_back_witness :
  Set_ [] "Referer:  http://localhost:8080/a b   "
  = ([mkHeader "Referer" "http://localhost:8080/a b"], None).
Proof.
  apply (Set_reads_back [] "Referer" "http://localhost:8080/a b" 2 3).
  - reflexivity.
  - simpl. discriminate.
  - simpl. discriminate.
Defined.

Section WithEnvironment.

Variable urlx_Parse : string -> URL + error.
Variable httpMethods : list string.
Variable cantHaveBody : list string.
Variable defaultTestDuration : Z.

(** X14.  For a configuration that [checkArgs] accepts, [timeoutMillis]
    is the timeout in whole microseconds, not milliseconds: the
    nanoseconds divided by 1000, rounded down, a value below [2^63], and
    [1000000] per second of timeout.  [checkArgs] leaves the timeout as
    it was and has made sure it is not negative, so the conversion to
    [uint64] does not wrap. *)
Theorem timeoutMillis_is_microseconds (c : Config) :
  is_int64 (Timeout c) ->
  snd (checkArgs urlx_Parse httpMethods cantHaveBody defaultTestDuration c)
  = None ->
  let c' :=
    fst (checkArgs urlx_Parse httpMethods cantHaveBody defaultTestDuration c)
  in
  Timeout c' = Timeout c /\
  0 <= timeoutMillis c' < two63 /\
  1000 * timeoutMillis c' <= Timeout c < 1000 * timeoutMillis c' + 1000 /\
  (forall s, Timeout c = s * time_Second ->
     timeoutMillis c' = 1000000 * s).
Proof.
  intros Hi Hacc c'.
  pose proof (proj1 (AcceptanceFacts.accepted_iff_acceptable urlx_Parse
                       httpMethods cantHaveBody defaultTestDuration c) Hacc)
    as (_ & _ & _ & _ & _ & _ & H0 & _).
  pose proof (AcceptanceFacts.checkArgs_shape urlx_Parse httpMethods
                cantHaveBody defaultTestDuration c) as (Hshape & _).
  fold c' in Hshape.
  assert (HT : Timeout c' = Timeout c) by (rewrite Hshape; reflexivity).
  split; [exact HT |].
  unfold timeoutMillis. rewrite HT.
  rewrite Z.quot_div_nonneg by lia.
  unfold is_int64 in Hi. rewrite two63_eq in *.
  assert (Hq : 0 <= Timeout c / 1000 < 9223372036854775808).
  { split; [apply Z.div_pos; lia |].
    apply Z.div_lt_upper_bound; lia. }
  rewrite wrap64_small by (unfold is_uint64; rewrite two64_eq; lia).
  split; [exact Hq |].
  pose proof (Z.div_mod (Timeout c) 1000 ltac:(lia)) as Hdm.
  pose proof (Z.mod_pos_bound (Timeout c) 1000 ltac:(lia)) as Hmb.
  split; [lia |].
  intros s Hs. rewrite Hs. unfold time_Second.
  replace (s * 1000000000) with (1000000 * s * 1000) by lia.
  apply Z.div_mul. lia.
Qed.

End WithEnvironment.

Lemma timeoutMillis_is_microseconds_witness :
  timeoutMillis (fst (Sample.check (Sample.config (Some 8) None None)))
  = 1000000 * 2.
Proof.
  apply (timeoutMillis_is_microseconds Sample.urlx_Parse Sample.httpMethods
           Sample.cantHaveBody Sample.defaultTestDuration
           (Sample.config (Some 8) None None)).
  - unfold is_int64. rewrite two63_eq. simpl. lia.
  - reflexivity.
  - reflexivity.
Defined.

End ReadBackFacts.
